(** * Stream liveness checker ([check.py]): embedding and properties

    The development follows [check.py]:
    - [check_url_with_requests]: the retry loop around [requests.head];
    - [process_stream]: one task, the probe of the URL line at [index];
    - [check_streams]: selection of the URL lines, the thread pool, and the
      collection of the results in the order [as_completed] yields them.

    Python [str] values are sequences of Unicode code points, integers are
    unbounded ([Z]); exceptions are explicit results; the calls to
    [requests.head] and the prints are recorded in a trace of events; the
    network and the interleaving of the worker threads are parameters. *)

From Stdlib Require Import ZArith NArith List Bool Lia Ascii String Permutation
  Sorted.
Import ListNotations.

Local Open Scope Z_scope.

(** ** Python strings *)

Module PyStr.

(** A [str] is a sequence of code points. *)
Definition char := N.
Definition str := list char.

(** Literals are written as Rocq strings of ASCII characters. *)
Definition lit (s : string) : str := map N_of_ascii (list_ascii_of_string s).

(** A line as [readlines()] returns it, with its newline. *)
Definition line (s : string) : str := lit s ++ [10%N].

(** [str.isspace] on one code point: the code points CPython classifies as
    whitespace, which are those [str.strip()] removes. *)
Definition isspace (c : char) : bool :=
  ((9 <=? c) && (c <=? 13) || (28 <=? c) && (c <=? 32)
   || (c =? 133) || (c =? 160) || (c =? 5760)
   || (8192 <=? c) && (c <=? 8202)
   || (c =? 8232) || (c =? 8233) || (c =? 8239) || (c =? 8287)
   || (c =? 12288))%N%bool.

Fixpoint lstrip (s : str) : str :=
  match s with
  | [] => []
  | c :: s' => if isspace c then lstrip s' else s
  end.

Definition rstrip (s : str) : str := rev (lstrip (rev s)).

(** [s.strip()] *)
Definition strip (s : str) : str := rstrip (lstrip s).

(** [s.startswith(p)] *)
Fixpoint startswith (s p : str) {struct p} : bool :=
  match p, s with
  | [], _ => true
  | _ :: _, [] => false
  | a :: p', b :: s' => (N.eqb b a && startswith s' p')%bool
  end.

End PyStr.
Import PyStr.

(** ** Exceptions, results and traces *)

(** The exception classes that matter to the [except] clause of
    [check_url_with_requests]: the first four are subclasses of
    [requests.RequestException], the last two are not. *)
Inductive exn : Type :=
| ConnectionError
| Timeout
| SSLError
| InvalidURL
| ValueError
| IndexError.

(** [isinstance(e, requests.RequestException)] *)
Definition is_RequestException (e : exn) : bool :=
  match e with
  | ConnectionError | Timeout | SSLError | InvalidURL => true
  | ValueError | IndexError => false
  end.

(** What one call [requests.head(url, timeout=timeout)] does: it returns a
    response, of which the code reads [status_code], or it raises. A response
    that does not arrive within the timeout is the exception [Timeout]. *)
Inductive outcome : Type :=
| Response (status_code : Z)
| Raises (e : exn).

(** The network: the outcome of the [k]-th call of [requests.head] made by one
    invocation of [check_url_with_requests], for a URL and a timeout. *)
Definition transport := str -> Z -> nat -> outcome.

Inductive message : Type :=
| ErrorChecking (url : str) (e : exn)   (* f"Error checking URL: {url} - {e}" *)
| LiveValid (url : str)                 (* f"Live/Valid: {url}" *)
| DeadInvalid (url : str).              (* f"Dead/Invalid: {url}" *)

Inductive event : Type :=
| Head (url : str) (timeout : Z)        (* one call of requests.head *)
| Print (m : message).

Inductive result (A : Type) : Type :=
| Returned (a : A)
| Raised (e : exn).
Arguments Returned {A} a.
Arguments Raised {A} e.

(** A computation: the events it performs, then how it ends. *)
Definition M (A : Type) : Type := list event * result A.

Definition ret {A} (a : A) : M A := ([], Returned a).
Definition raise {A} (e : exn) : M A := ([], Raised e).
Definition emit (ev : event) : M unit := ([ev], Returned tt).

Definition bind {A B} (m : M A) (k : A -> M B) : M B :=
  match m with
  | (t, Returned a) => let (t', r) := k a in (t ++ t', r)
  | (t, Raised e) => (t, Raised e)
  end.

Notation "x <- m ;; k" := (bind m (fun x => k))
  (at level 61, m at next level, right associativity).
Notation "m ;;; k" := (bind m (fun _ => k))
  (at level 61, right associativity).

Definition trace_of {A} (m : M A) : list event := fst m.
Definition result_of {A} (m : M A) : result A := snd m.

Definition is_Head (ev : event) : bool :=
  match ev with Head _ _ => true | Print _ => false end.

(** The number of probe attempts a computation performs: the calls of
    [requests.head] in its trace. *)
Definition attempts {A} (m : M A) : nat :=
  List.length (filter is_Head (trace_of m)).

(** ** Python sequences *)

(** [range(n)] *)
Definition range (n : Z) : list Z := map Z.of_nat (seq 0 (Z.to_nat n)).

(** [l[i]] with Python's negative indices; out of range is [IndexError]. *)
Definition getitem {A} (l : list A) (i : Z) : M A :=
  let n := Z.of_nat (List.length l) in
  let j := if i <? 0 then i + n else i in
  if (0 <=? j) && (j <? n) then
    match nth_error l (Z.to_nat j) with
    | Some a => ret a
    | None => raise IndexError
    end
  else raise IndexError.

(** ** [check_url_with_requests] *)

Section Prober.

Variable net : transport.

(** How one iteration of the [for] loop ends. *)
Inductive control : Type :=
| ReturnNow (b : bool)     (* return b *)
| NextIteration            (* fall through, or continue *)
| Propagate (e : exn).     (* an exception the except clause does not catch *)

(** The body of [for attempt in range(retries)] (lines 18-25). *)
Definition attempt_body (url : str) (timeout retries attempt : Z)
  : list event * control :=
  match net url timeout (Z.to_nat attempt) with
  | Response status_code =>
      if status_code =? 200 then ([Head url timeout], ReturnNow true)
      else ([Head url timeout], NextIteration)
  | Raises e =>
      if is_RequestException e then
        if attempt <? retries - 1 then ([Head url timeout], NextIteration)
        else ([Head url timeout; Print (ErrorChecking url e)], NextIteration)
      else ([Head url timeout], Propagate e)
  end.

Fixpoint attempt_loop (url : str) (timeout retries : Z) (todo : list Z)
  : M bool :=
  match todo with
  | [] => ret false                       (* line 26 *)
  | attempt :: todo' =>
      match attempt_body url timeout retries attempt with
      | (t, ReturnNow b) => (t, Returned b)
      | (t, Propagate e) => (t, Raised e)
      | (t, NextIteration) =>
          let (t', r) := attempt_loop url timeout retries todo' in
          (t ++ t', r)
      end
  end.

Definition check_url_with_requests (url : str) (timeout retries : Z) : M bool :=
  attempt_loop url timeout retries (range retries).

End Prober.

(** ** [process_stream] *)

(** [if verbose: print(m)] *)
Definition print_if (verbose : bool) (m : message) : M unit :=
  if verbose then emit (Print m) else ret tt.

(** One task of the pool (lines 28-38). [index - 1] is passed to Python's
    indexing as it is. *)
Definition process_stream (net : transport) (index : Z) (lines : list str)
    (timeout : Z) (verbose : bool) (retries : Z) : M (list str) :=
  line <- getitem lines index ;;
  let url := strip line in
  live <- check_url_with_requests net url timeout retries ;;
  if live then
    print_if verbose (LiveValid url) ;;;
    extinf <- getitem lines (index - 1) ;;
    urlline <- getitem lines index ;;
    ret [extinf; urlline]
  else
    print_if verbose (DeadInvalid url) ;;;
    ret [].

(** ** [check_streams] *)

(** [enumerate(lines)] *)
Fixpoint enumerate_from {A} (i : Z) (l : list A) : list (Z * A) :=
  match l with
  | [] => []
  | a :: l' => (i, a) :: enumerate_from (i + 1) l'
  end.

Definition enumerate {A} (l : list A) : list (Z * A) := enumerate_from 0 l.

(** The indices the dict comprehension submits a task for (lines 47-51):
    [i for i, line in enumerate(lines) if line.startswith("http")]. *)
Definition url_indices (lines : list str) : list Z :=
  map fst (filter (fun il => startswith (snd il) (lit "http")) (enumerate lines)).

(** *** The thread pool and [as_completed]

    All tasks are submitted before the first result is read. A task waits in
    the executor's queue, runs on one of at most [max_workers] workers,
    finishes, and is then yielded to the main thread by [as_completed], which
    yields finished futures in no particular order. *)
Record pool : Type := mkPool {
  queue : list Z;       (* submitted, not started: FIFO *)
  running : list Z;     (* on a worker *)
  finished : list Z;    (* future done, not yet yielded *)
  yielded : list Z      (* yielded by as_completed, oldest first *)
}.

Inductive action : Type :=
| Start                 (* a free worker takes the head of the queue *)
| Finish (i : Z)        (* the task of index i ends *)
| Yield (i : Z).        (* as_completed yields the future of index i *)

(** Removes the first occurrence of [i]; [None] when there is none. *)
Fixpoint take (i : Z) (l : list Z) : option (list Z) :=
  match l with
  | [] => None
  | j :: l' =>
      if j =? i then Some l'
      else match take i l' with
           | Some r => Some (j :: r)
           | None => None
           end
  end.

(** One transition; [None] when the action is not enabled. *)
Definition step (max_workers : Z) (a : action) (p : pool) : option pool :=
  match a with
  | Start =>
      match queue p with
      | i :: q =>
          if Z.of_nat (List.length (running p)) <? max_workers
          then Some (mkPool q (running p ++ [i]) (finished p) (yielded p))
          else None
      | [] => None
      end
  | Finish i =>
      match take i (running p) with
      | Some r => Some (mkPool (queue p) r (i :: finished p) (yielded p))
      | None => None
      end
  | Yield i =>
      match take i (finished p) with
      | Some f => Some (mkPool (queue p) (running p) f (yielded p ++ [i]))
      | None => None
      end
  end.

(** A schedule is the interleaving chosen by the threads and the network. *)
Fixpoint run (max_workers : Z) (sched : list action) (p : pool) : option pool :=
  match sched with
  | [] => Some p
  | a :: sched' =>
      match step max_workers a p with
      | Some p' => run max_workers sched' p'
      | None => None
      end
  end.

Definition submit_all (tasks : list Z) : pool := mkPool tasks [] [] [].

(** Nothing is left to start, to finish or to yield. *)
Definition all_done (p : pool) : bool :=
  match queue p, running p, finished p with
  | [], [], [] => true
  | _, _, _ => false
  end.

(** The tasks of a pool, wherever they are. *)
Definition content (p : pool) : list Z :=
  queue p ++ running p ++ finished p ++ yielded p.

(** The number of tasks a schedule starts. *)
Definition starts (sched : list action) : nat :=
  List.length (filter (fun a => match a with Start => true | _ => false end) sched).

(** The work still ahead of a pool, in transitions. *)
Definition remaining (p : pool) : nat :=
  (3 * List.length (queue p) + 2 * List.length (running p)
   + List.length (finished p))%nat.

(** The network of a run: one transport per task. *)
Definition world := Z -> transport.

(** The loop of lines 53-54 over the futures in the order they are yielded:
    [live_lines.extend(future.result())]; [future.result()] re-raises what the
    task raised. *)
Fixpoint collect (task : Z -> M (list str)) (order : list Z)
    (live_lines : list str) : result (list str) :=
  match order with
  | [] => Returned live_lines
  | i :: order' =>
      match result_of (task i) with
      | Returned ls => collect task order' (live_lines ++ ls)
      | Raised e => Raised e
      end
  end.

(** [check_streams] on the lines read from the input file, for a schedule of
    the pool; the result is the list passed to [outfile.writelines]. [None]
    says that [sched] is not a complete execution of this pool.
    [ThreadPoolExecutor] refuses [max_workers <= 0] with [ValueError]. *)
Definition check_streams (w : world) (lines : list str) (max_workers timeout : Z)
    (verbose : bool) (retries : Z) (sched : list action)
    : option (result (list str)) :=
  if max_workers <=? 0 then Some (Raised ValueError)
  else
    match run max_workers sched (submit_all (url_indices lines)) with
    | Some p =>
        if all_done p then
          Some (collect
                  (fun i => process_stream (w i) i lines timeout verbose retries)
                  (yielded p) [])
        else None
    | None => None
    end.

(** ** Notions used by the statements *)

(** [s] is [l] with some elements left out, the others in their order. *)
Inductive subsequence {A} : list A -> list A -> Prop :=
| sub_nil : forall l, subsequence [] l
| sub_keep : forall a s l, subsequence s l -> subsequence (a :: s) (a :: l)
| sub_skip : forall a s l, subsequence s l -> subsequence s (a :: l).

(** The written lines, two by two: the entries of the output. *)
Fixpoint pairs (out : list str) : list (str * str) :=
  match out with
  | m :: u :: out' => (m, u) :: pairs out'
  | _ => []
  end.

(** [lines[i]] when it does not raise. *)
Definition line_at (lines : list str) (i : Z) : str :=
  match result_of (getitem lines i) with
  | Returned l => l
  | Raised _ => []
  end.

(** The two lines [process_stream] returns for a live URL line. *)
Definition entry_lines (lines : list str) (i : Z) : list str :=
  [line_at lines (i - 1); line_at lines i].

(** The same as a pair: the entry of the URL line at [i]. *)
Definition entry_at (lines : list str) (i : Z) : str * str :=
  (line_at lines (i - 1), line_at lines i).

(** The input entry sequence: one entry per submitted task, in file order. *)
Definition entries (lines : list str) : list (str * str) :=
  map (entry_at lines) (url_indices lines).

(** The verdict of the probe of task [i]. *)
Definition verdict (w : world) (lines : list str) (timeout retries : Z) (i : Z)
  : bool :=
  match result_of (check_url_with_requests (w i) (strip (line_at lines i))
                     timeout retries) with
  | Returned b => b
  | Raised _ => false
  end.

(** The outcomes the code absorbs: a response of any status, or an exception
    that is a [requests.RequestException]. *)
Definition absorbed (o : outcome) : bool :=
  match o with
  | Response _ => true
  | Raises e => is_RequestException e
  end.

(** Some networks. *)
Definition always_fails (e : exn) : transport := fun _ _ _ => Raises e.
Definition always_status (code : Z) : transport := fun _ _ _ => Response code.

(** The scenario of the specification: two entries, the first dead, the
    second live. *)
Definition scenario_lines : list str :=
  [line "#EXTINF:-1,A"; line "http://dead.example";
   line "#EXTINF:-1,B"; line "http://live.example"].

Definition scenario_world : world :=
  fun i => if i =? 3 then always_status 200 else always_fails ConnectionError.

(** A playlist that begins with a URL line. *)
Definition headless_lines : list str :=
  [line "http://a.example"; line "#EXTINF:-1,B"; line "http://b.example"].

(** A playlist whose URL line is indented. *)
Definition indented_lines : list str :=
  [line "#EXTINF:-1,A"; line "  http://a.example"].

(** The second task finishes and is yielded before the first. *)
Definition second_first : list action :=
  [Start; Start; Finish 3; Yield 3; Finish 1; Yield 1].

(** Every task in turn: start, finish, yield. *)
Definition sequential (tasks : list Z) : list action :=
  flat_map (fun i => [Start; Finish i; Yield i]) tasks.

(** ** Files, folders and the combined playlist *)

(** [s.endswith(suffix)] *)
Definition endswith (s suffix : str) : bool := startswith (rev s) (rev suffix).

(** [s.endswith(tuple(suffixes))] *)
Definition endswith_any (s : str) (suffixes : list str) : bool :=
  existsb (endswith s) suffixes.

(** [os.path.join(a, b)], as [posixpath] defines it. *)
Definition path_join (a b : str) : str :=
  if startswith b (lit "/") then b
  else match a with
       | [] => b
       | _ :: _ => if endswith a (lit "/") then a ++ b else a ++ lit "/" ++ b
       end.

(** [f"live_{filename}"] *)
Definition live_name (filename : str) : str := lit "live_" ++ filename.

(** The calls [check_streams(input_file, output_file, ...)] that the loop of
    [process_folder] (lines 67-72) makes, in order, for the list of names
    [os.listdir(input_folder)] returned; the loop has no handler, so when a
    call raises the later ones are not made. *)
Definition process_folder_calls (input_folder output_folder : str)
    (extensions listing : list str) : list (str * str) :=
  map (fun filename => (path_join input_folder filename,
                        path_join output_folder (live_name filename)))
      (filter (fun filename => endswith_any filename extensions) listing).

(** Reading in text mode translates the line ends ["\r\n"] and ["\r"] to
    ["\n"]. *)
Fixpoint universal_newlines (text : str) : str :=
  match text with
  | [] => []
  | c :: text' =>
      if (c =? 13)%N then
        10%N :: match text' with
                | d :: text'' =>
                    if (d =? 10)%N then universal_newlines text''
                    else universal_newlines text'
                | [] => []
                end
      else c :: universal_newlines text'
  end.

(** The lines of a translated text: each goes up to and including its
    ["\n"]; [cur] is the line being read. *)
Fixpoint lines_from (cur text : str) : list str :=
  match text with
  | [] => match cur with [] => [] | _ :: _ => [cur] end
  | c :: text' =>
      if (c =? 10)%N then (cur ++ [c]) :: lines_from [] text'
      else lines_from (cur ++ [c]) text'
  end.

(** [file.readlines()] on the decoded content of a file (line 43, line 81). *)
Definition readlines (text : str) : list str :=
  lines_from [] (universal_newlines text).

(** The text [outfile.writelines(lines)] writes (line 58, line 84): the lines
    one after the other, nothing between them. *)
Definition writelines (lines : list str) : str := List.concat lines.

(** [check_streams] from the content of the input file to the content of the
    output file. *)
Definition check_streams_text (w : world) (text : str) (max_workers timeout : Z)
    (verbose : bool) (retries : Z) (sched : list action)
    : option (result str) :=
  match check_streams w (readlines text) max_workers timeout verbose retries
          sched with
  | Some (Returned live_lines) => Some (Returned (writelines live_lines))
  | Some (Raised e) => Some (Raised e)
  | None => None
  end.

(** What a path is for [open(path, 'r', encoding='utf-8')]: a file whose bytes
    decode to a text, a file whose bytes are not UTF-8, a directory, or
    nothing. *)
Inductive node : Type :=
| File (text : str)
| Undecodable
| Directory
| Missing.

Inductive oserror : Type :=
| FileNotFoundError
| IsADirectoryError
| UnicodeDecodeError.

Inductive io (A : Type) : Type :=
| Done (a : A)
| Failed (e : oserror).
Arguments Done {A} a.
Arguments Failed {A} e.

Definition filesystem := str -> node.

(** [with open(path, 'r', encoding='utf-8') as file: file.readlines()] *)
Definition open_readlines (fs : filesystem) (path : str) : io (list str) :=
  match fs path with
  | File text => Done (readlines text)
  | Undecodable => Failed UnicodeDecodeError
  | Directory => Failed IsADirectoryError
  | Missing => Failed FileNotFoundError
  end.

(** The loop of [combine_m3u8_files] (lines 77-81) over the names
    [os.listdir(output_folder)] returned. *)
Fixpoint combine_loop (fs : filesystem) (output_folder : str)
    (listing : list str) (combined_lines : list str) : io (list str) :=
  match listing with
  | [] => Done combined_lines
  | filename :: listing' =>
      if endswith filename (lit ".m3u8") then
        match open_readlines fs (path_join output_folder filename) with
        | Done lines =>
            combine_loop fs output_folder listing' (combined_lines ++ lines)
        | Failed e => Failed e
        end
      else combine_loop fs output_folder listing' combined_lines
  end.

(** [combine_m3u8_files]: the list passed to [outfile.writelines], or the
    error of the first read that fails, in which case nothing is written. *)
Definition combine_m3u8_files (fs : filesystem) (output_folder : str)
    (listing : list str) : io (list str) :=
  combine_loop fs output_folder listing [].

(** An outcome after which the loop goes on to the next attempt without a
    word: a status other than 200, or a [RequestException]. *)
Definition goes_on (o : outcome) : bool :=
  match o with
  | Response code => negb (code =? 200)
  | Raises e => is_RequestException e
  end.

(** A line as [readlines] gives it when its line end was there: no line end
    inside, ["\n"] at the end. *)
Definition terminated (l : str) : Prop :=
  exists body, l = body ++ [10%N] /\ ~ In 10%N body /\ ~ In 13%N body.

(** A server that answers 503, then times out, then answers 200. *)
Definition flaky : transport :=
  fun _ _ k =>
    match k with
    | 0%nat => Response 503
    | 1%nat => Raises Timeout
    | _ => Response 200
    end.

(** A network whose second request fails outside [requests]' exceptions. *)
Definition crashing : transport :=
  fun _ _ k =>
    match k with
    | 1%nat => Raises ValueError
    | _ => Response 404
    end.

(** A network that raises an exception [requests] does not define. *)
Definition broken_world : world :=
  fun i => if i =? 1 then always_fails ValueError else always_status 200.

(** A folder of outputs: two playlists and an entry that is not a file. *)
Definition sample_fs : filesystem :=
  fun path =>
    if startswith path (lit "out/live_a.m3u8") then
      File (lit "#EXTINF:-1,A" ++ [13%N; 10%N] ++ lit "http://a.example")
    else if startswith path (lit "out/live_b.m3u8") then
      File (line "#EXTINF:-1,B" ++ line "http://b.example")
    else if startswith path (lit "out/dir.m3u8") then Directory
    else Missing.

(** Whether an outcome is a response of status 200. *)
Definition is_200 (o : outcome) : bool :=
  match o with
  | Response code => code =? 200
  | Raises _ => false
  end.

(** * Properties *)

(** ** The monad *)

Lemma result_of_bind {A B} (m : M A) (k : A -> M B) :
  result_of (bind m k) =
  match result_of m with
  | Returned a => result_of (k a)
  | Raised e => Raised e
  end.
Proof.
  destruct m as [t [a|e]]; simpl; [|reflexivity].
  destruct (k a); reflexivity.
Qed.

(** ** The retry loop *)

Section ProberFacts.

Variable net : transport.
Variables (url : str) (timeout retries : Z).

Lemma is_200_Response o : is_200 o = true <-> o = Response 200.
Proof.
  destruct o as [c|e]; simpl.
  - rewrite Z.eqb_eq. split; [intros ->; reflexivity | congruence].
  - split; discriminate.
Qed.

(** Every iteration issues exactly one request. *)
Lemma attempt_body_one_request attempt :
  List.length (filter is_Head (fst (attempt_body net url timeout retries attempt)))
  = 1%nat.
Proof.
  unfold attempt_body.
  destruct (net url timeout (Z.to_nat attempt)) as [c|e].
  - destruct (c =? 200); reflexivity.
  - destruct (is_RequestException e); [|reflexivity].
    destruct (attempt <? retries - 1); reflexivity.
Qed.

Lemma attempt_body_control attempt :
  snd (attempt_body net url timeout retries attempt) =
  match net url timeout (Z.to_nat attempt) with
  | Response c => if c =? 200 then ReturnNow true else NextIteration
  | Raises e => if is_RequestException e then NextIteration else Propagate e
  end.
Proof.
  unfold attempt_body.
  destruct (net url timeout (Z.to_nat attempt)) as [c|e].
  - destruct (c =? 200); reflexivity.
  - destruct (is_RequestException e); [|reflexivity].
    destruct (attempt <? retries - 1); reflexivity.
Qed.

(** One unfolding of the loop, result and number of requests. *)
Lemma attempt_loop_cons attempt todo :
  result_of (attempt_loop net url timeout retries (attempt :: todo)) =
    match snd (attempt_body net url timeout retries attempt) with
    | ReturnNow b => Returned b
    | Propagate e => Raised e
    | NextIteration => result_of (attempt_loop net url timeout retries todo)
    end
  /\ attempts (attempt_loop net url timeout retries (attempt :: todo)) =
    match snd (attempt_body net url timeout retries attempt) with
    | NextIteration =>
        S (attempts (attempt_loop net url timeout retries todo))
    | _ => 1%nat
    end.
Proof.
  pose proof (attempt_body_one_request attempt) as H1.
  unfold attempts, trace_of, result_of. simpl attempt_loop.
  destruct (attempt_body net url timeout retries attempt) as [t [b| |e]];
    simpl in *; auto.
  destruct (attempt_loop net url timeout retries todo) as [t' r]; simpl.
  rewrite filter_app, length_app, H1. auto.
Qed.

(** While the outcomes are absorbed the loop returns, and it returns
    whether one of the attempts got status 200. *)
Lemma attempt_loop_absorbed todo :
  (forall a, In a todo -> absorbed (net url timeout (Z.to_nat a)) = true) ->
  result_of (attempt_loop net url timeout retries todo) =
  Returned (existsb (fun a => is_200 (net url timeout (Z.to_nat a))) todo).
Proof.
  induction todo as [|a todo IH]; intros Habs; [reflexivity|].
  destruct (attempt_loop_cons a todo) as [-> _].
  rewrite attempt_body_control.
  assert (Ha := Habs a (or_introl eq_refl)).
  simpl existsb.
  destruct (net url timeout (Z.to_nat a)) as [c|e]; simpl in *.
  - destruct (c =? 200); [reflexivity|].
    apply IH. intros; apply Habs; right; assumption.
  - rewrite Ha. apply IH. intros; apply Habs; right; assumption.
Qed.

(** When every attempt raises a [RequestException], every element of the
    range costs one request. *)
Lemma attempt_loop_all_fail todo :
  (forall a, In a todo ->
     exists e, net url timeout (Z.to_nat a) = Raises e
               /\ is_RequestException e = true) ->
  attempts (attempt_loop net url timeout retries todo) = List.length todo
  /\ result_of (attempt_loop net url timeout retries todo) = Returned false.
Proof.
  induction todo as [|a todo IH]; intros Hf; [split; reflexivity|].
  destruct (attempt_loop_cons a todo) as [-> ->].
  rewrite attempt_body_control.
  destruct (Hf a (or_introl eq_refl)) as (e & -> & ->).
  destruct IH as [IH1 IH2]; [intros; apply Hf; right; assumption|].
  simpl. rewrite IH1, IH2. split; reflexivity.
Qed.

Lemma range_length : List.length (range retries) = Z.to_nat retries.
Proof. unfold range. rewrite length_map, length_seq. reflexivity. Qed.

Lemma in_range a :
  In a (range retries) <-> exists k, a = Z.of_nat k /\ (k < Z.to_nat retries)%nat.
Proof.
  unfold range. rewrite in_map_iff. split.
  - intros (k & <- & Hk). apply in_seq in Hk. exists k. split; [reflexivity|lia].
  - intros (k & -> & Hk). exists k. split; [reflexivity|]. apply in_seq. lia.
Qed.

Lemma range_pos : 1 <= retries -> exists todo, range retries = 0 :: todo.
Proof.
  intros H. unfold range.
  destruct (Z.to_nat retries) as [|n] eqn:E; [lia|].
  simpl. eexists; reflexivity.
Qed.

End ProberFacts.

(** The result of the whole call while the outcomes in range are absorbed. *)
Lemma check_url_absorbed net url timeout retries :
  (forall k, (k < Z.to_nat retries)%nat -> absorbed (net url timeout k) = true) ->
  result_of (check_url_with_requests net url timeout retries) =
  Returned (existsb (fun a => is_200 (net url timeout (Z.to_nat a))) (range retries)).
Proof.
  intros Habs. apply attempt_loop_absorbed.
  intros a Ha. apply in_range in Ha. destruct Ha as (k & -> & Hk).
  rewrite Nat2Z.id. apply Habs, Hk.
Qed.

(** A network on which every attempt in range raises a [RequestException]:
    the call makes as many requests as [range(retries)] has elements. *)
Lemma check_url_all_fail net url timeout retries :
  (forall k, (k < Z.to_nat retries)%nat ->
     exists e, net url timeout k = Raises e /\ is_RequestException e = true) ->
  attempts (check_url_with_requests net url timeout retries) = Z.to_nat retries
  /\ result_of (check_url_with_requests net url timeout retries) = Returned false.
Proof.
  intros Hf. rewrite <- (range_length retries).
  apply attempt_loop_all_fail.
  intros a Ha. apply in_range in Ha. destruct Ha as (k & -> & Hk).
  rewrite Nat2Z.id. apply Hf, Hk.
Qed.

(** Status 200 at the first attempt, with at least one element in the range:
    one request, and [True]. *)
Lemma check_url_first_200 net url timeout retries :
  1 <= retries ->
  net url timeout 0%nat = Response 200 ->
  check_url_with_requests net url timeout retries
  = ([Head url timeout], Returned true).
Proof.
  intros Hr H0. unfold check_url_with_requests.
  destruct (range_pos retries Hr) as [todo ->].
  simpl. unfold attempt_body. simpl Z.to_nat. rewrite H0. reflexivity.
Qed.

(** C5: one attempt counts as live exactly when [requests.head] returns a
    response (so within the timeout) whose status code is 200: the loop body
    returns [True] if and only if the outcome is [Response 200], a call with a
    single attempt returns [True] if and only if that attempt's outcome is
    [Response 200], every other status code makes the body go on to the next
    iteration, and no exception makes it return [True]. *)
Theorem attempt_live_iff_status_200 :
  forall (net : transport) (url : str) (timeout retries attempt : Z),
    (snd (attempt_body net url timeout retries attempt) = ReturnNow true
     <-> net url timeout (Z.to_nat attempt) = Response 200)
    /\ (result_of (check_url_with_requests net url timeout 1) = Returned true
        <-> net url timeout 0%nat = Response 200)
    /\ (forall code,
          snd (attempt_body (always_status code) url timeout retries attempt)
          = if code =? 200 then ReturnNow true else NextIteration)
    /\ (forall e,
          snd (attempt_body (always_fails e) url timeout retries attempt)
          = if is_RequestException e then NextIteration else Propagate e).
Proof.
  intros net url timeout retries attempt. repeat split.
  - rewrite attempt_body_control.
    destruct (net url timeout (Z.to_nat attempt)) as [c|e].
    + destruct (c =? 200) eqn:E; [|discriminate].
      apply Z.eqb_eq in E. subst c. reflexivity.
    + destruct (is_RequestException e); discriminate.
  - intros H. rewrite attempt_body_control, H. reflexivity.
  - unfold check_url_with_requests. change (range 1) with [0].
    destruct (attempt_loop_cons net url timeout 1 0 []) as [-> _].
    rewrite attempt_body_control. change (Z.to_nat 0) with 0%nat.
    destruct (net url timeout 0%nat) as [c|e].
    + destruct (c =? 200) eqn:E; [|discriminate].
      apply Z.eqb_eq in E. subst c. reflexivity.
    + destruct (is_RequestException e); discriminate.
  - intros H. apply check_url_first_200 with (retries := 1) in H; [|lia].
    rewrite H. reflexivity.
  - intros code. rewrite attempt_body_control. reflexivity.
  - intros e. rewrite attempt_body_control. reflexivity.
Qed.

(** An exception that leaves the loop was raised by one of the attempts and
    is not a [RequestException]. *)
Lemma attempt_loop_raised net url timeout retries todo e :
  result_of (attempt_loop net url timeout retries todo) = Raised e ->
  exists a, In a todo
            /\ net url timeout (Z.to_nat a) = Raises e
            /\ is_RequestException e = false.
Proof.
  induction todo as [|a todo IH]; intros H; [discriminate H|].
  destruct (attempt_loop_cons net url timeout retries a todo) as [Hr _].
  rewrite Hr, attempt_body_control in H.
  assert (Hnext : result_of (attempt_loop net url timeout retries todo)
                  = Raised e ->
                  exists a0, In a0 (a :: todo)
                             /\ net url timeout (Z.to_nat a0) = Raises e
                             /\ is_RequestException e = false).
  { intros H'. destruct (IH H') as (a0 & Ha0 & Hrest).
    exists a0. split; [right; exact Ha0|exact Hrest]. }
  destruct (net url timeout (Z.to_nat a)) as [c|e'] eqn:E.
  - destruct (c =? 200); [discriminate H|]. apply Hnext, H.
  - destruct (is_RequestException e') eqn:Er; [apply Hnext, H|].
    injection H as <-. exists a. split; [left; reflexivity|]. split; assumption.
Qed.

(** C4, as the code has it: for every URL, timeout and number of retries
    (negative ones too), [check_url_with_requests] absorbs every non-success
    status and every failure that is a [requests.RequestException]: when each
    attempt gets a response, of any status, or fails with such an exception,
    the call returns a boolean, which is [True] exactly when one of the
    attempts got status 200 and so [False] once the attempts are exhausted.
    The call raises in one case only: an attempt raised an exception that is
    not a [RequestException], and that exception is the one it raises. *)
Theorem check_url_raises_only_uncaught_exceptions :
  forall (net : transport) (url : str) (timeout retries : Z),
    ((forall k, (k < Z.to_nat retries)%nat ->
        absorbed (net url timeout k) = true) ->
     exists b : bool,
       result_of (check_url_with_requests net url timeout retries) = Returned b
       /\ (b = true <->
           exists k, (k < Z.to_nat retries)%nat
                     /\ net url timeout k = Response 200))
    /\ (forall e,
          result_of (check_url_with_requests net url timeout retries) = Raised e ->
          is_RequestException e = false
          /\ exists k, (k < Z.to_nat retries)%nat
                       /\ net url timeout k = Raises e).
Proof.
  intros net url timeout retries. split.
  - intros Habs.
    eexists. split; [apply check_url_absorbed, Habs|].
    rewrite existsb_exists. split.
    + intros (a & Ha & H200). apply in_range in Ha.
      destruct Ha as (k & -> & Hk).
      rewrite Nat2Z.id in H200. exists k. split; [exact Hk|].
      apply is_200_Response, H200.
    + intros (k & Hk & H200). exists (Z.of_nat k). split.
      * apply in_range. exists k. split; [reflexivity|exact Hk].
      * rewrite Nat2Z.id. apply is_200_Response, H200.
  - intros e H. apply attempt_loop_raised in H.
    destruct H as (a & Ha & Hraise & He). split; [exact He|].
    apply in_range in Ha. destruct Ha as (k & -> & Hk).
    rewrite Nat2Z.id in Hraise. exists k. split; assumption.
Qed.

Lemma check_url_raises_only_uncaught_exceptions_witness :
  exists b : bool,
    result_of (check_url_with_requests (always_fails Timeout)
                 (lit "http://dead.example") 5 3) = Returned b
    /\ (b = true <->
        exists k, (k < Z.to_nat 3)%nat
                  /\ always_fails Timeout (lit "http://dead.example") 5 k
                     = Response 200).
Proof.
  refine (proj1 (check_url_raises_only_uncaught_exceptions
                   (always_fails Timeout) (lit "http://dead.example") 5 3) _).
  intros k _. reflexivity.
Defined.

(** C4, as stated, fails: when [requests.head] raises a [ValueError], as it
    does for a timeout of 0, the exception is not caught: the call makes one
    request and raises, it returns no boolean. *)
Lemma check_url_raises_value_error :
  check_url_with_requests (always_fails ValueError) (lit "http://a.example") 0 3
  = ([Head (lit "http://a.example") 0], Raised ValueError)
  /\ ~ (exists b : bool,
          result_of (check_url_with_requests (always_fails ValueError)
                       (lit "http://a.example") 0 3) = Returned b).
Proof.
  split; [reflexivity|]. intros [b H]. discriminate H.
Qed.

(** C2 (the code against the claim): on a network where every attempt fails
    with a connection error, the call makes [retries] requests, not
    [retries + 1], before it returns [False]; with [retries = 2] it makes 2
    requests, with [retries = 0] none. *)
Theorem all_attempts_fail_request_count :
  forall (url : str) (timeout retries : Z),
    attempts (check_url_with_requests (always_fails ConnectionError)
                url timeout retries) = Z.to_nat retries
    /\ result_of (check_url_with_requests (always_fails ConnectionError)
                    url timeout retries) = Returned false
    /\ attempts (check_url_with_requests (always_fails ConnectionError)
                   url timeout 2) = 2%nat
    /\ attempts (check_url_with_requests (always_fails ConnectionError)
                   url timeout 0) = 0%nat.
Proof.
  intros url timeout retries.
  destruct (check_url_all_fail (always_fails ConnectionError) url timeout retries)
    as [Hn Hr].
  { intros k _. exists ConnectionError. split; reflexivity. }
  repeat split; assumption || reflexivity.
Qed.

(** C8 (the code against the claim): with [retries = 0] a URL that answers
    200 to every request is not asked at all and is reported dead. *)
Theorem first_attempt_200_without_retries :
  forall (url : str) (timeout : Z),
    attempts (check_url_with_requests (always_status 200) url timeout 0) = 0%nat
    /\ result_of (check_url_with_requests (always_status 200) url timeout 0)
       = Returned false.
Proof. intros url timeout. split; reflexivity. Qed.

(** C10: with [retries = 0] the loop body never runs: whatever the network,
    the URL and the timeout, the call performs no event at all, so no request,
    and returns [False]; the verdict of every task is then dead. *)
Theorem zero_retries_reports_dead :
  forall (net : transport) (url : str) (timeout : Z),
    check_url_with_requests net url timeout 0 = ([], Returned false)
    /\ attempts (check_url_with_requests net url timeout 0) = 0%nat
    /\ (forall (w : world) (lines : list str) (i : Z),
          verdict w lines timeout 0 i = false).
Proof. intros net url timeout. repeat split. Qed.

(** ** Strings *)

Lemma startswith_split s p : startswith s p = true -> exists r, s = p ++ r.
Proof.
  revert s. induction p as [|a p IH]; intros s H; simpl in H.
  - exists s. reflexivity.
  - destruct s as [|b s]; [discriminate|].
    apply andb_true_iff in H. destruct H as [Hab H].
    apply N.eqb_eq in Hab. subst b.
    destruct (IH s H) as [r ->]. exists r. reflexivity.
Qed.

(** [lstrip] removes a prefix of whitespace. *)
Lemma lstrip_split s :
  exists sp, s = sp ++ lstrip s /\ forallb isspace sp = true.
Proof.
  induction s as [|c s (sp & IH & Hsp)]; simpl.
  - exists []. split; reflexivity.
  - destruct (isspace c) eqn:E.
    + exists (c :: sp). simpl. rewrite E, Hsp. split; [congruence|reflexivity].
    + exists []. split; reflexivity.
Qed.

(** [rstrip] removes a suffix of whitespace. *)
Lemma rstrip_split s :
  exists sp, s = rstrip s ++ sp /\ forallb isspace sp = true.
Proof.
  unfold rstrip. destruct (lstrip_split (rev s)) as (sp & E & Hsp).
  exists (rev sp). split.
  - apply (f_equal (@rev char)) in E.
    rewrite rev_involutive, rev_app_distr in E. exact E.
  - rewrite forallb_forall in *. intros c Hc. apply Hsp, in_rev, Hc.
Qed.

(** A line that begins with ["http"] still does once trimmed. *)
Lemma startswith_http_strip s :
  startswith s (lit "http") = true -> startswith (strip s) (lit "http") = true.
Proof.
  intros H. apply startswith_split in H. destruct H as [r ->].
  unfold strip. change (lstrip (lit "http" ++ r)) with (lit "http" ++ r).
  destruct (rstrip_split (lit "http" ++ r)) as (sp & E & Hsp).
  revert E. generalize (rstrip (lit "http" ++ r)) as t.
  change (lit "http") with [104%N; 116%N; 116%N; 112%N].
  intros [|a [|b [|c [|d t]]]] E; simpl in E.
  - subst sp. discriminate Hsp.
  - injection E as <- <-. discriminate Hsp.
  - injection E as <- <- <-. discriminate Hsp.
  - injection E as <- <- <- <-. discriminate Hsp.
  - injection E as <- <- <- <- _. reflexivity.
Qed.

(** ** Indexing *)

Lemma getitem_in_range {A} (l : list A) (i : Z) (d : A) :
  0 <= i < Z.of_nat (List.length l) ->
  getitem l i = ret (nth (Z.to_nat i) l d).
Proof.
  intros H. unfold getitem.
  destruct (i <? 0) eqn:E; [apply Z.ltb_lt in E; lia|].
  replace (0 <=? i) with true by (symmetry; apply Z.leb_le; lia).
  replace (i <? Z.of_nat (List.length l)) with true
    by (symmetry; apply Z.ltb_lt; lia).
  simpl. rewrite (nth_error_nth' l d) by lia. reflexivity.
Qed.

Lemma getitem_wraps {A} (l : list A) (i : Z) (d : A) :
  - Z.of_nat (List.length l) <= i < 0 ->
  getitem l i = ret (nth (Z.to_nat (i + Z.of_nat (List.length l))) l d).
Proof.
  intros H. unfold getitem.
  destruct (i <? 0) eqn:E; [|apply Z.ltb_ge in E; lia].
  replace (0 <=? i + Z.of_nat (List.length l)) with true
    by (symmetry; apply Z.leb_le; lia).
  replace (i + Z.of_nat (List.length l) <? Z.of_nat (List.length l)) with true
    by (symmetry; apply Z.ltb_lt; lia).
  simpl. rewrite (nth_error_nth' l d) by lia. reflexivity.
Qed.

Lemma line_at_in_range lines i :
  0 <= i < Z.of_nat (List.length lines) ->
  line_at lines i = nth (Z.to_nat i) lines [].
Proof.
  intros H. unfold line_at. rewrite (getitem_in_range lines i []) by exact H.
  reflexivity.
Qed.

(** [lines[-1]] is the last line. *)
Lemma getitem_minus_one {A} (u : A) (rest : list A) :
  getitem (u :: rest) (-1) = ret (last (u :: rest) u).
Proof.
  rewrite (getitem_wraps (u :: rest) (-1) u)
    by (simpl List.length; lia).
  f_equal.
  replace (Z.to_nat (-1 + Z.of_nat (List.length (u :: rest))))
    with (List.length rest) by (simpl List.length; lia).
  generalize u at 1 3. induction rest as [|v rest IH]; intros x; [reflexivity|].
  change (nth (List.length (v :: rest)) (x :: v :: rest) u)
    with (nth (List.length rest) (v :: rest) u).
  rewrite IH. reflexivity.
Qed.

(** ** The selection of the URL lines *)

Lemma in_enumerate_from {A} (l : list A) i j a :
  In (j, a) (enumerate_from i l)
  <-> i <= j /\ nth_error l (Z.to_nat (j - i)) = Some a.
Proof.
  revert i. induction l as [|x l IH]; intros i; simpl.
  - split; [tauto|]. intros [_ H]. destruct (Z.to_nat (j - i)); discriminate.
  - rewrite IH. split.
    + intros [H|[H1 H2]].
      * injection H as <- <-. rewrite Z.sub_diag. split; [lia|reflexivity].
      * split; [lia|].
        replace (Z.to_nat (j - i)) with (S (Z.to_nat (j - (i + 1)))) by lia.
        exact H2.
    + intros [H1 H2]. destruct (Z.eq_dec i j) as [->|Hne].
      * rewrite Z.sub_diag in H2. injection H2 as ->. left; reflexivity.
      * right. split; [lia|].
        replace (Z.to_nat (j - i)) with (S (Z.to_nat (j - (i + 1)))) in H2 by lia.
        exact H2.
Qed.

Lemma in_selected {A} (f : Z * A -> bool) (l : list A) i j :
  In j (map fst (filter f (enumerate_from i l))) ->
  i <= j < i + Z.of_nat (List.length l).
Proof.
  rewrite in_map_iff. intros ([j' a] & <- & H). simpl.
  apply filter_In in H. destruct H as [H _].
  apply in_enumerate_from in H. destruct H as [H1 H2].
  assert (Z.to_nat (j' - i) < List.length l)%nat
    by (apply nth_error_Some; congruence).
  lia.
Qed.

Lemma selected_NoDup {A} (f : Z * A -> bool) (l : list A) i :
  NoDup (map fst (filter f (enumerate_from i l))).
Proof.
  revert i. induction l as [|x l IH]; intros i; simpl; [constructor|].
  destruct (f (i, x)); [|apply IH].
  simpl. constructor; [|apply IH].
  intros H. apply in_selected in H. lia.
Qed.

Lemma selected_length {A} (g : A -> bool) (l : list A) i :
  List.length (map fst (filter (fun il => g (snd il)) (enumerate_from i l)))
  = List.length (filter g l).
Proof.
  revert i. induction l as [|x l IH]; intros i; simpl; [reflexivity|].
  destruct (g x); simpl; rewrite IH; reflexivity.
Qed.

Lemma url_indices_in_range lines i :
  In i (url_indices lines) -> 0 <= i < Z.of_nat (List.length lines).
Proof. intros H. apply in_selected in H. lia. Qed.

Lemma url_indices_NoDup lines : NoDup (url_indices lines).
Proof. apply selected_NoDup. Qed.

(** C6, as the code has it: the extractor submits a task for exactly the
    lines whose raw text, as read, begins with ["http"]: an index is selected
    if and only if it is the index of such a line, no index is selected twice,
    and there are as many tasks as such lines; the trimmed text of a selected
    line begins with ["http"] too. *)
Theorem url_indices_raw_prefix :
  forall (lines : list str),
    (forall i, In i (url_indices lines)
               <-> 0 <= i < Z.of_nat (List.length lines)
                   /\ startswith (line_at lines i) (lit "http") = true)
    /\ NoDup (url_indices lines)
    /\ List.length (url_indices lines)
       = List.length (filter (fun l => startswith l (lit "http")) lines)
    /\ (forall i, In i (url_indices lines) ->
                  startswith (strip (line_at lines i)) (lit "http") = true).
Proof.
  intros lines.
  assert (Hiff : forall i, In i (url_indices lines)
               <-> 0 <= i < Z.of_nat (List.length lines)
                   /\ startswith (line_at lines i) (lit "http") = true).
  { intros i. split.
    - intros H. pose proof (url_indices_in_range lines i H) as Hr.
      split; [exact Hr|].
      unfold url_indices in H. apply in_map_iff in H.
      destruct H as ([j a] & Hj & H). simpl in Hj. subst j.
      apply filter_In in H. destruct H as [H Hhttp]. cbn [snd] in Hhttp.
      apply in_enumerate_from in H. destruct H as [_ H].
      rewrite Z.sub_0_r in H.
      rewrite line_at_in_range by exact Hr.
      rewrite (nth_error_nth lines (Z.to_nat i) [] H). exact Hhttp.
    - intros [Hr Hhttp]. unfold url_indices. apply in_map_iff.
      exists (i, line_at lines i). split; [reflexivity|].
      apply filter_In. split; [|exact Hhttp].
      apply in_enumerate_from. split; [lia|].
      rewrite Z.sub_0_r, line_at_in_range by exact Hr.
      apply nth_error_nth'. lia. }
  split; [exact Hiff|].
  split; [apply url_indices_NoDup|].
  split; [apply (selected_length (fun l => startswith l (lit "http")))|].
  intros i H. apply startswith_http_strip, Hiff, H.
Qed.

Lemma url_indices_raw_prefix_witness :
  In 1 (url_indices scenario_lines)
  /\ startswith (strip (line_at scenario_lines 1)) (lit "http") = true.
Proof.
  pose proof (url_indices_raw_prefix scenario_lines) as (Hiff & _ & _ & Hstrip).
  assert (H : In 1 (url_indices scenario_lines)).
  { apply Hiff. split; [simpl; lia | reflexivity]. }
  split; [exact H | exact (Hstrip 1 H)].
Defined.

(** C6, as stated, fails: the indented URL line of [indented_lines] has a
    trimmed text that begins with ["http"], and no task is submitted for it. *)
Lemma trimmed_prefix_not_selected :
  ~ (forall i, 0 <= i < Z.of_nat (List.length indented_lines) ->
       (In i (url_indices indented_lines)
        <-> startswith (strip (line_at indented_lines i)) (lit "http") = true)).
Proof.
  intros H. destruct (H 1) as [_ H1]; [simpl; lia|].
  exact (H1 eq_refl).
Qed.

(** ** One task *)

Lemma getitem_line_at lines j :
  - Z.of_nat (List.length lines) <= j < Z.of_nat (List.length lines) ->
  getitem lines j = ret (line_at lines j).
Proof.
  intros H. unfold line_at. destruct (Z_lt_le_dec j 0).
  - rewrite (getitem_wraps lines j []) by lia. reflexivity.
  - rewrite (getitem_in_range lines j []) by lia. reflexivity.
Qed.

(** What a task returns for an index [enumerate] can give. *)
Lemma process_stream_result net lines i timeout verbose retries :
  0 <= i < Z.of_nat (List.length lines) ->
  result_of (process_stream net i lines timeout verbose retries) =
  match result_of (check_url_with_requests net (strip (line_at lines i))
                     timeout retries) with
  | Returned true => Returned (entry_lines lines i)
  | Returned false => Returned []
  | Raised e => Raised e
  end.
Proof.
  intros H. unfold process_stream.
  rewrite !(getitem_line_at lines i) by lia.
  rewrite (getitem_line_at lines (i - 1)) by lia.
  rewrite result_of_bind. cbn [ret result_of snd].
  rewrite result_of_bind.
  destruct (result_of (check_url_with_requests net (strip (line_at lines i))
                         timeout retries)) as [[|]|e]; [| |reflexivity].
  - destruct verbose; reflexivity.
  - destruct verbose; reflexivity.
Qed.

(** C7 (the code against the claim): for a URL line at index 0 that is live,
    [process_stream] prints no diagnostic and raises nothing: it returns the
    last line of the file, read through the index -1, followed by the URL
    line. On [headless_lines] the entry written is the last line,
    [http://b.example], then [http://a.example]. *)
Theorem first_line_url_pairs_with_last_line :
  forall (u : str) (rest : list str) (timeout : Z) (verbose : bool),
    process_stream (always_status 200) 0 (u :: rest) timeout verbose 3
    = (Head (strip u) timeout
         :: (if verbose then [Print (LiveValid (strip u))] else []),
       Returned [last (u :: rest) u; u])
    /\ In 0 (url_indices headless_lines)
    /\ result_of (process_stream (always_status 200) 0 headless_lines 5 true 3)
       = Returned [line "http://b.example"; line "http://a.example"].
Proof.
  intros u rest timeout verbose. split; [|split; [left|]; reflexivity].
  unfold process_stream. change (0 - 1) with (-1).
  rewrite getitem_minus_one.
  rewrite (getitem_in_range (u :: rest) 0 u) by (simpl List.length; lia).
  change (nth (Z.to_nat 0) (u :: rest) u) with u.
  unfold bind at 1. cbn [ret].
  rewrite (check_url_first_200 (always_status 200) (strip u) timeout 3)
    by (reflexivity || lia).
  destruct verbose; reflexivity.
Qed.

(** ** The thread pool *)

Lemma take_head i l : take i (i :: l) = Some l.
Proof. simpl. rewrite Z.eqb_refl. reflexivity. Qed.

Lemma take_Some i l r :
  take i l = Some r -> Permutation l (i :: r) /\ List.length l = S (List.length r).
Proof.
  revert r. induction l as [|j l IH]; intros r H; simpl in H; [discriminate|].
  destruct (j =? i) eqn:E.
  - apply Z.eqb_eq in E. injection H as <-. subst j. split; reflexivity.
  - destruct (take i l) as [r'|]; [|discriminate]. injection H as <-.
    destruct (IH r' eq_refl) as [IH1 IH2]. split.
    + rewrite IH1. apply perm_swap.
    + simpl. rewrite IH2. reflexivity.
Qed.

Lemma filter_perm {A} (f : A -> bool) (l l' : list A) :
  Permutation l l' -> Permutation (filter f l) (filter f l').
Proof.
  induction 1 as [|x l l' _ IH|x y l|l l' l'' _ IH1 _ IH2]; simpl.
  - constructor.
  - destruct (f x); [constructor|]; exact IH.
  - destruct (f x), (f y); try reflexivity. apply perm_swap.
  - rewrite IH1. exact IH2.
Qed.

(** A transition moves one task one stage further. *)
Lemma step_invariant mw a p p' :
  step mw a p = Some p' ->
  Permutation (content p) (content p')
  /\ remaining p = S (remaining p')
  /\ List.length (queue p) = (starts [a] + List.length (queue p'))%nat.
Proof.
  destruct p as [q r f y]. unfold remaining, starts, content.
  destruct a as [|i|i]; simpl.
  - destruct q as [|i q]; [discriminate|].
    destruct (Z.of_nat (List.length r) <? mw); [|discriminate].
    intros H. injection H as <-. simpl. split; [|split].
    + rewrite <- !app_assoc. simpl.
      rewrite (app_assoc q r (i :: f ++ y)), (app_assoc q r (f ++ y)).
      apply Permutation_middle.
    + rewrite length_app. simpl. lia.
    + reflexivity.
  - destruct (take i r) as [r'|] eqn:E; [|discriminate].
    intros H. injection H as <-. simpl.
    apply take_Some in E. destruct E as [E1 E2]. split; [|split].
    + apply Permutation_app_head. rewrite E1. simpl.
      apply Permutation_middle.
    + lia.
    + reflexivity.
  - destruct (take i f) as [f'|] eqn:E; [|discriminate].
    intros H. injection H as <-. simpl.
    apply take_Some in E. destruct E as [E1 E2]. split; [|split].
    + do 2 apply Permutation_app_head. rewrite E1. simpl.
      rewrite app_assoc. apply Permutation_cons_append.
    + lia.
    + reflexivity.
Qed.

Lemma run_invariant mw sched p p' :
  run mw sched p = Some p' ->
  Permutation (content p) (content p')
  /\ remaining p = (List.length sched + remaining p')%nat
  /\ List.length (queue p) = (starts sched + List.length (queue p'))%nat.
Proof.
  revert p. induction sched as [|a sched IH]; intros p H; simpl in H.
  - injection H as <-. repeat split; reflexivity.
  - destruct (step mw a p) as [p1|] eqn:E; [|discriminate].
    apply step_invariant in E. destruct E as (E1 & E2 & E3).
    destruct (IH p1 H) as (H1 & H2 & H3). split; [|split].
    + rewrite E1. exact H1.
    + simpl. lia.
    + unfold starts in *. simpl in *.
      destruct a; simpl in *; lia.
Qed.

(** A pool with work left and at least one worker is never stuck. *)
Lemma step_progress mw p :
  0 < mw -> all_done p = false -> exists a p', step mw a p = Some p'.
Proof.
  intros Hmw H. destruct p as [q r f y]. unfold all_done in H. simpl in H.
  destruct f as [|i f].
  - destruct r as [|i r].
    + destruct q as [|i q]; [discriminate|].
      exists Start. simpl.
      destruct (0 <? mw) eqn:E; [eexists; reflexivity|].
      apply Z.ltb_ge in E. lia.
    + exists (Finish i). unfold step. cbn [running]. rewrite take_head.
      eexists; reflexivity.
  - exists (Yield i). unfold step. cbn [finished]. rewrite take_head.
    eexists; reflexivity.
Qed.

(** One worker at a time is a complete execution. *)
Lemma run_sequential mw tasks y :
  0 < mw ->
  run mw (sequential tasks) (mkPool tasks [] [] y)
  = Some (mkPool [] [] [] (y ++ tasks)).
Proof.
  intros Hmw. revert y. induction tasks as [|i tasks IH]; intros y.
  - simpl. rewrite app_nil_r. reflexivity.
  - change (sequential (i :: tasks))
      with (Start :: Finish i :: Yield i :: sequential tasks).
    cbn [run step queue running finished yielded List.length Z.of_nat app].
    destruct (0 <? mw) eqn:E; [|apply Z.ltb_ge in E; lia].
    cbn [run step queue running finished yielded]. rewrite take_head.
    cbn [run step queue running finished yielded]. rewrite take_head.
    cbn [queue running finished yielded].
    rewrite IH, <- app_assoc. reflexivity.
Qed.

Lemma all_done_content p :
  all_done p = true -> content p = yielded p.
Proof.
  destruct p as [[|? ?] [|? ?] [|? ?] y]; unfold content; simpl;
    try discriminate. reflexivity.
Qed.

(** ** The collection of the results *)

Lemma pairs_entry_lines lines l :
  pairs (flat_map (entry_lines lines) l) = map (entry_at lines) l.
Proof. induction l as [|i l IH]; simpl; [|rewrite IH]; reflexivity. Qed.

Lemma length_entry_lines lines l :
  List.length (flat_map (entry_lines lines) l) = (2 * List.length l)%nat.
Proof. induction l as [|i l IH]; simpl; [|rewrite IH]; lia. Qed.

Lemma subsequence_filter {A} (f : A -> bool) (l : list A) :
  subsequence (filter f l) l.
Proof.
  induction l as [|a l IH]; simpl; [constructor|].
  destruct (f a); constructor; exact IH.
Qed.

Lemma subsequence_map {A B} (g : A -> B) (s l : list A) :
  subsequence s l -> subsequence (map g s) (map g l).
Proof. induction 1; simpl; constructor; assumption. Qed.

Lemma subsequence_swapped {A} (a b : A) :
  a <> b -> ~ subsequence [b; a] [a; b].
Proof.
  intros Hne H.
  repeat match goal with
         | H : subsequence _ _ |- _ => inversion H; clear H; subst
         end; congruence.
Qed.

Section Collection.

Variables (w : world) (lines : list str) (timeout : Z) (verbose : bool)
          (retries : Z).

Let task (i : Z) : M (list str) :=
  process_stream (w i) i lines timeout verbose retries.

Let live : Z -> bool := verdict w lines timeout retries.

(** What a task that returns contributes to the output. *)
Lemma task_returned i ls :
  0 <= i < Z.of_nat (List.length lines) ->
  result_of (task i) = Returned ls ->
  ls = if live i then entry_lines lines i else [].
Proof.
  intros Hi. unfold task, live, verdict.
  rewrite process_stream_result by exact Hi.
  destruct (result_of (check_url_with_requests (w i) (strip (line_at lines i))
                         timeout retries)) as [[|]|e];
    congruence.
Qed.

(** A task whose outcomes are absorbed returns. *)
Lemma task_absorbed i :
  0 <= i < Z.of_nat (List.length lines) ->
  (forall k, (k < Z.to_nat retries)%nat ->
     absorbed (w i (strip (line_at lines i)) timeout k) = true) ->
  exists ls, result_of (task i) = Returned ls.
Proof.
  intros Hi Habs. unfold task.
  rewrite process_stream_result by exact Hi.
  rewrite (check_url_absorbed _ _ _ _ Habs).
  destruct (existsb _ _); eexists; reflexivity.
Qed.

Lemma collect_returned order acc out :
  (forall i, In i order -> 0 <= i < Z.of_nat (List.length lines)) ->
  collect task order acc = Returned out ->
  out = acc ++ flat_map (entry_lines lines) (filter live order).
Proof.
  revert acc. induction order as [|i order IH]; intros acc Hin H; simpl in H.
  - injection H as <-. simpl. rewrite app_nil_r. reflexivity.
  - destruct (result_of (task i)) as [ls|e] eqn:E; [|discriminate].
    apply task_returned in E; [|apply Hin; left; reflexivity].
    apply IH in H; [|intros; apply Hin; right; assumption].
    subst out ls. simpl filter.
    destruct (live i); simpl; rewrite <- app_assoc; reflexivity.
Qed.

Lemma collect_absorbed order acc :
  (forall i, In i order -> exists ls, result_of (task i) = Returned ls) ->
  exists out, collect task order acc = Returned out.
Proof.
  revert acc. induction order as [|i order IH]; intros acc H; simpl.
  - eexists; reflexivity.
  - destruct (H i (or_introl eq_refl)) as [ls ->].
    apply IH. intros; apply H; right; assumption.
Qed.

(** The shape of what [check_streams] writes when it returns. *)
Lemma check_streams_returned max_workers sched out :
  check_streams w lines max_workers timeout verbose retries sched
  = Some (Returned out) ->
  exists p,
    run max_workers sched (submit_all (url_indices lines)) = Some p
    /\ Permutation (yielded p) (url_indices lines)
    /\ out = flat_map (entry_lines lines) (filter live (yielded p)).
Proof.
  unfold check_streams.
  destruct (max_workers <=? 0); [discriminate|].
  destruct (run max_workers sched (submit_all (url_indices lines)))
    as [p|] eqn:Hrun; [|discriminate].
  destruct (all_done p) eqn:Hdone; [|discriminate].
  intros H. injection H as H.
  assert (Hperm : Permutation (yielded p) (url_indices lines)).
  { apply run_invariant in Hrun. destruct Hrun as (Hperm & _ & _).
    rewrite (all_done_content p Hdone) in Hperm.
    unfold content, submit_all in Hperm. simpl in Hperm.
    rewrite !app_nil_r in Hperm. symmetry. exact Hperm. }
  exists p. split; [reflexivity|]. split; [exact Hperm|].
  apply collect_returned in H; [exact H|].
  intros i Hi. apply url_indices_in_range.
  apply (Permutation_in _ Hperm Hi).
Qed.

(** On a network whose outcomes are absorbed, [check_streams] returns. *)
Lemma check_streams_absorbed max_workers sched r :
  (forall i k, In i (url_indices lines) -> (k < Z.to_nat retries)%nat ->
     absorbed (w i (strip (line_at lines i)) timeout k) = true) ->
  0 < max_workers ->
  check_streams w lines max_workers timeout verbose retries sched = Some r ->
  exists out, r = Returned out.
Proof.
  intros Habs Hmw. unfold check_streams.
  destruct (max_workers <=? 0) eqn:E; [apply Z.leb_le in E; lia|].
  destruct (run max_workers sched (submit_all (url_indices lines)))
    as [p|] eqn:Hrun; [|discriminate].
  destruct (all_done p) eqn:Hdone; [|discriminate].
  intros H. injection H as <-.
  apply run_invariant in Hrun. destruct Hrun as (Hperm & _ & _).
  rewrite (all_done_content p Hdone) in Hperm.
  unfold content, submit_all in Hperm. simpl in Hperm.
  rewrite !app_nil_r in Hperm.
  apply collect_absorbed. intros i Hi.
  assert (Hin : In i (url_indices lines))
    by (apply (Permutation_in _ (Permutation_sym Hperm) Hi)).
  apply task_absorbed; [apply url_indices_in_range, Hin|].
  intros k Hk. apply Habs; assumption.
Qed.

End Collection.

(** C1, as the code has it: on a network whose failures are absorbed, what
    [check_streams] writes is made of the entries of the live URL lines, each
    once, in the order in which [as_completed] yields their futures: a
    permutation of the subsequence of live entries of E. It is that
    subsequence itself, in the order of E, when the futures are yielded in the
    order of submission, as in a sequential execution. *)
Theorem check_streams_emits_in_yield_order :
  forall (w : world) (lines : list str) (max_workers timeout : Z)
         (verbose : bool) (retries : Z) (sched : list action)
         (r : result (list str)),
    (forall i k, In i (url_indices lines) -> (k < Z.to_nat retries)%nat ->
       absorbed (w i (strip (line_at lines i)) timeout k) = true) ->
    0 < max_workers ->
    check_streams w lines max_workers timeout verbose retries sched = Some r ->
    let live := verdict w lines timeout retries in
    let survivors := map (entry_at lines) (filter live (url_indices lines)) in
    subsequence survivors (entries lines)
    /\ (exists p out,
          run max_workers sched (submit_all (url_indices lines)) = Some p
          /\ r = Returned out
          /\ Permutation (yielded p) (url_indices lines)
          /\ pairs out = map (entry_at lines) (filter live (yielded p))
          /\ Permutation (pairs out) survivors
          /\ (yielded p = url_indices lines -> pairs out = survivors))
    /\ (exists out,
          check_streams w lines max_workers timeout verbose retries
            (sequential (url_indices lines)) = Some (Returned out)
          /\ pairs out = survivors).
Proof.
  intros w lines mw timeout verbose retries sched r Habs Hmw Hcs live survivors.
  split; [|split].
  - apply subsequence_map, subsequence_filter.
  - destruct (check_streams_absorbed _ _ _ _ _ _ _ _ Habs Hmw Hcs) as [out ->].
    destruct (check_streams_returned _ _ _ _ _ _ _ _ Hcs) as (p & Hrun & Hperm & ->).
    exists p. eexists. split; [exact Hrun|]. split; [reflexivity|].
    split; [exact Hperm|].
    rewrite pairs_entry_lines. split; [reflexivity|]. split.
    + apply Permutation_map, filter_perm, Hperm.
    + intros ->. reflexivity.
  - pose proof (run_sequential mw (url_indices lines) [] Hmw) as Hrun.
    assert (Hseq : exists r', check_streams w lines mw timeout verbose retries
                      (sequential (url_indices lines)) = Some r').
    { unfold check_streams.
      destruct (mw <=? 0) eqn:E; [apply Z.leb_le in E; lia|].
      unfold submit_all. rewrite Hrun. eexists; reflexivity. }
    destruct Hseq as [r' Hr'].
    destruct (check_streams_absorbed _ _ _ _ _ _ _ _ Habs Hmw Hr') as [out ->].
    exists out. split; [exact Hr'|].
    destruct (check_streams_returned _ _ _ _ _ _ _ _ Hr') as (p & Hrun' & _ & ->).
    unfold submit_all in Hrun'. rewrite Hrun in Hrun'. injection Hrun' as <-.
    rewrite pairs_entry_lines. reflexivity.
Qed.

Lemma check_streams_emits_in_yield_order_witness :
  exists out,
    check_streams scenario_world scenario_lines 2 5 false 3
      (sequential (url_indices scenario_lines)) = Some (Returned out)
    /\ pairs out
       = map (entry_at scenario_lines)
           (filter (verdict scenario_world scenario_lines 5 3)
              (url_indices scenario_lines)).
Proof.
  refine (proj2 (proj2
    (check_streams_emits_in_yield_order scenario_world scenario_lines 2 5 false 3
       second_first
       (Returned [line "#EXTINF:-1,B"; line "http://live.example"])
       _ _ _))).
  - intros i k _ _. unfold scenario_world.
    destruct (i =? 3); reflexivity.
  - lia.
  - reflexivity.
Defined.

(** C1, as stated, fails: when both URLs of the scenario's playlist are live
    and the second probe is yielded before the first, [check_streams] writes
    the entry of B before the entry of A, which is not a subsequence of the
    input entries in their order. *)
Lemma yield_order_breaks_input_order :
  exists out,
    check_streams (fun _ => always_status 200) scenario_lines 2 5 false 3
      second_first = Some (Returned out)
    /\ out = [line "#EXTINF:-1,B"; line "http://live.example";
              line "#EXTINF:-1,A"; line "http://dead.example"]
    /\ ~ subsequence (pairs out) (entries scenario_lines).
Proof.
  eexists. split; [reflexivity|]. split; [reflexivity|].
  apply subsequence_swapped. discriminate.
Qed.

(** C9: when [check_streams] returns, what it writes has exactly two lines
    for every live entry and nothing else, and for every live URL line at
    index [i] the line [lines[i - 1]] and the URL line [lines[i]] are in the
    output next to each other, in this order, starting at an even position;
    [lines[i]] is the URL line itself, and for [i >= 1] the line
    [lines[i - 1]] is the line just before it in the file. *)
Theorem live_entry_lines_adjacent :
  forall (w : world) (lines : list str) (max_workers timeout : Z)
         (verbose : bool) (retries : Z) (sched : list action)
         (out : list str),
    check_streams w lines max_workers timeout verbose retries sched
    = Some (Returned out) ->
    List.length out
    = (2 * List.length (filter (verdict w lines timeout retries)
                          (url_indices lines)))%nat
    /\ forall i,
         In i (url_indices lines) ->
         verdict w lines timeout retries i = true ->
         (exists pre post,
             out = pre ++ [line_at lines (i - 1); line_at lines i] ++ post
             /\ Nat.even (List.length pre) = true)
         /\ line_at lines i = nth (Z.to_nat i) lines []
         /\ (1 <= i -> line_at lines (i - 1) = nth (Z.to_nat i - 1) lines []).
Proof.
  intros w lines mw timeout verbose retries sched out Hcs.
  destruct (check_streams_returned _ _ _ _ _ _ _ _ Hcs) as (p & _ & Hperm & ->).
  split.
  - rewrite length_entry_lines.
    rewrite (Permutation_length (filter_perm _ _ _ Hperm)). reflexivity.
  - intros i Hi Hlive.
    pose proof (url_indices_in_range lines i Hi) as Hr.
    split; [|split].
    + assert (Hin : In i (filter (verdict w lines timeout retries) (yielded p))).
      { apply filter_In. split; [|exact Hlive].
        apply (Permutation_in _ (Permutation_sym Hperm) Hi). }
      apply in_split in Hin. destruct Hin as (l1 & l2 & ->).
      exists (flat_map (entry_lines lines) l1),
             (flat_map (entry_lines lines) l2).
      split.
      * rewrite flat_map_app. reflexivity.
      * rewrite length_entry_lines, Nat.even_mul. reflexivity.
    + apply line_at_in_range, Hr.
    + intros H1. rewrite line_at_in_range by lia.
      f_equal. lia.
Qed.

Lemma live_entry_lines_adjacent_witness :
  exists pre post,
    [line "#EXTINF:-1,B"; line "http://live.example"]
    = pre ++ [line_at scenario_lines (3 - 1); line_at scenario_lines 3] ++ post
    /\ Nat.even (List.length pre) = true.
Proof.
  refine (proj1 (proj2
    (live_entry_lines_adjacent scenario_world scenario_lines 2 5 false 3
       second_first
       [line "#EXTINF:-1,B"; line "http://live.example"] _) 3 _ _)).
  - reflexivity.
  - right; left; reflexivity.
  - reflexivity.
Defined.


(** * Further properties of [check.py] *)

(** ** The trace of the retry loop *)

Section ProberTraces.

Variable net : transport.
Variables (url : str) (timeout retries : Z).

(** One unfolding of the loop, with its trace. *)
Lemma attempt_loop_unfold attempt todo :
  attempt_loop net url timeout retries (attempt :: todo) =
  match snd (attempt_body net url timeout retries attempt) with
  | ReturnNow b =>
      (fst (attempt_body net url timeout retries attempt), Returned b)
  | Propagate e =>
      (fst (attempt_body net url timeout retries attempt), Raised e)
  | NextIteration =>
      (fst (attempt_body net url timeout retries attempt)
         ++ trace_of (attempt_loop net url timeout retries todo),
       result_of (attempt_loop net url timeout retries todo))
  end.
Proof.
  simpl attempt_loop.
  destruct (attempt_body net url timeout retries attempt) as [t [b| |e]];
    try reflexivity.
  destruct (attempt_loop net url timeout retries todo); reflexivity.
Qed.

(** The trace of an iteration that is not the last one of the range. *)
Lemma attempt_body_quiet attempt :
  attempt < retries - 1 ->
  fst (attempt_body net url timeout retries attempt) = [Head url timeout].
Proof.
  intros H. unfold attempt_body.
  destruct (net url timeout (Z.to_nat attempt)) as [c|e].
  - destruct (c =? 200); reflexivity.
  - destruct (is_RequestException e); [|reflexivity].
    destruct (attempt <? retries - 1) eqn:E; [reflexivity|].
    apply Z.ltb_ge in E. lia.
Qed.

(** The trace of an iteration that got a response. *)
Lemma attempt_body_response attempt code :
  net url timeout (Z.to_nat attempt) = Response code ->
  fst (attempt_body net url timeout retries attempt) = [Head url timeout].
Proof.
  intros H. unfold attempt_body. rewrite H.
  destruct (code =? 200); reflexivity.
Qed.

Lemma goes_on_control attempt :
  goes_on (net url timeout (Z.to_nat attempt)) = true ->
  snd (attempt_body net url timeout retries attempt) = NextIteration.
Proof.
  rewrite attempt_body_control.
  destruct (net url timeout (Z.to_nat attempt)) as [c|e]; simpl.
  - destruct (c =? 200); [discriminate|reflexivity].
  - intros ->. reflexivity.
Qed.

(** Attempts that go on, none of them the last of the range, each leave one
    request in the trace and nothing else. *)
Lemma attempt_loop_skip s k rest :
  Z.of_nat (s + k) <= retries - 1 ->
  (forall j, (s <= j < s + k)%nat -> goes_on (net url timeout j) = true) ->
  attempt_loop net url timeout retries (map Z.of_nat (seq s k) ++ rest) =
  (repeat (Head url timeout) k
     ++ trace_of (attempt_loop net url timeout retries rest),
   result_of (attempt_loop net url timeout retries rest)).
Proof.
  revert s. induction k as [|k IH]; intros s Hle Hgo.
  - simpl. destruct (attempt_loop net url timeout retries rest); reflexivity.
  - simpl seq. simpl map. simpl app. rewrite attempt_loop_unfold.
    rewrite goes_on_control by (rewrite Nat2Z.id; apply Hgo; lia).
    rewrite attempt_body_quiet by lia.
    rewrite IH; [reflexivity|lia|].
    intros j Hj. apply Hgo. lia.
Qed.

(** The range, cut at one of its elements. *)
Lemma range_split k :
  (k < Z.to_nat retries)%nat ->
  range retries =
  map Z.of_nat (seq 0 k) ++ Z.of_nat k
    :: map Z.of_nat (seq (S k) (Z.to_nat retries - S k)).
Proof.
  intros Hk. unfold range.
  replace (Z.to_nat retries) with (k + S (Z.to_nat retries - S k))%nat at 1
    by lia.
  rewrite seq_app, map_app. reflexivity.
Qed.

(** What the events of the loop can be, and how many requests there are. *)
Lemma attempt_loop_events todo :
  (attempts (attempt_loop net url timeout retries todo) <= List.length todo)%nat
  /\ forall ev, In ev (trace_of (attempt_loop net url timeout retries todo)) ->
       ev = Head url timeout \/ exists e, ev = Print (ErrorChecking url e).
Proof.
  induction todo as [|a todo [IH1 IH2]].
  - split; [unfold attempts; simpl; lia|]. simpl. tauto.
  - destruct (attempt_loop_cons net url timeout retries a todo) as [_ Hn].
    split.
    + rewrite Hn.
      destruct (snd (attempt_body net url timeout retries a)); simpl; lia.
    + intros ev. rewrite attempt_loop_unfold.
      assert (Hbody : forall ev,
                 In ev (fst (attempt_body net url timeout retries a)) ->
                 ev = Head url timeout
                 \/ exists e, ev = Print (ErrorChecking url e)).
      { intros ev'. unfold attempt_body.
        destruct (net url timeout (Z.to_nat a)) as [c|e].
        - destruct (c =? 200); simpl; intuition auto.
        - destruct (is_RequestException e);
            [destruct (a <? retries - 1)|]; simpl; intuition eauto. }
      destruct (snd (attempt_body net url timeout retries a));
        unfold trace_of; simpl; try apply Hbody.
      intros H. apply in_app_or in H. destruct H as [H|H];
        [apply Hbody, H | apply IH2, H].
Qed.

(** A message in the trace: it was printed by the last attempt of the range,
    which raised, and the loop then ends with [False]. *)
Lemma attempt_loop_message s n m :
  (s + n)%nat = Z.to_nat retries ->
  In (Print m)
     (trace_of (attempt_loop net url timeout retries (map Z.of_nat (seq s n)))) ->
  exists e,
    m = ErrorChecking url e
    /\ net url timeout (Z.to_nat (retries - 1)) = Raises e
    /\ is_RequestException e = true
    /\ result_of (attempt_loop net url timeout retries (map Z.of_nat (seq s n)))
       = Returned false
    /\ attempts (attempt_loop net url timeout retries (map Z.of_nat (seq s n)))
       = n.
Proof.
  revert s. induction n as [|n IH]; intros s Hs Hin; [destruct Hin|].
  simpl seq in *. simpl map in *.
  destruct (attempt_loop_cons net url timeout retries (Z.of_nat s)
              (map Z.of_nat (seq (S s) n))) as [Hr Hn].
  rewrite Hr, Hn. rewrite attempt_loop_unfold in Hin.
  assert (Hnext : In (Print m)
            (trace_of (attempt_loop net url timeout retries
                         (map Z.of_nat (seq (S s) n)))) ->
          exists e,
            m = ErrorChecking url e
            /\ net url timeout (Z.to_nat (retries - 1)) = Raises e
            /\ is_RequestException e = true
            /\ result_of (attempt_loop net url timeout retries
                            (map Z.of_nat (seq (S s) n))) = Returned false
            /\ S (attempts (attempt_loop net url timeout retries
                              (map Z.of_nat (seq (S s) n)))) = S n).
  { intros H. destruct (IH (S s)) as (e & H1 & H2 & H3 & H4 & H5);
      [lia|exact H|].
    exists e. rewrite H5. auto. }
  unfold attempt_body in *.
  destruct (net url timeout (Z.to_nat (Z.of_nat s))) as [c|e] eqn:Enet.
  - destruct (c =? 200); unfold trace_of in Hin; simpl in Hin.
    + destruct Hin as [Hin|[]]. discriminate Hin.
    + destruct Hin as [Hin|Hin]; [discriminate Hin|]. apply Hnext, Hin.
  - destruct (is_RequestException e) eqn:Ereq.
    + destruct (Z.of_nat s <? retries - 1) eqn:Elast;
        unfold trace_of in Hin; simpl in Hin.
      * destruct Hin as [Hin|Hin]; [discriminate Hin|]. apply Hnext, Hin.
      * apply Z.ltb_ge in Elast.
        assert (n = 0%nat) by lia. subst n.
        destruct Hin as [Hin|[Hin|Hin]]; [discriminate Hin| |destruct Hin].
        injection Hin as <-. exists e.
        replace (Z.to_nat (retries - 1)) with (Z.to_nat (Z.of_nat s)) by lia.
        simpl. auto.
    + unfold trace_of in Hin; simpl in Hin.
      destruct Hin as [Hin|[]]. discriminate Hin.
Qed.

End ProberTraces.

(** X1: whatever the network does, [check_url_with_requests] issues at most
    [retries] requests (none when [retries] is zero or negative), every one of
    them for the URL and the timeout it was given, and the only other thing it
    does is print error messages about that URL. *)
Theorem check_url_request_bound :
  forall (net : transport) (url : str) (timeout retries : Z),
    (attempts (check_url_with_requests net url timeout retries)
     <= Z.to_nat retries)%nat
    /\ forall ev,
         In ev (trace_of (check_url_with_requests net url timeout retries)) ->
         ev = Head url timeout \/ exists e, ev = Print (ErrorChecking url e).
Proof.
  intros net url timeout retries.
  destruct (attempt_loop_events net url timeout retries (range retries))
    as [H1 H2].
  rewrite range_length in H1. split; assumption.
Qed.

(** X2: when the attempts before attempt [k] get a status other than 200 or
    fail with a [RequestException], and attempt [k], within the range, gets
    status 200, the call returns [True] after exactly [k + 1] requests and
    prints nothing: the failures before a success are not reported. *)
Theorem check_url_stops_at_first_200 :
  forall (net : transport) (url : str) (timeout retries : Z) (k : nat),
    (k < Z.to_nat retries)%nat ->
    (forall j, (j < k)%nat -> goes_on (net url timeout j) = true) ->
    net url timeout k = Response 200 ->
    check_url_with_requests net url timeout retries
    = (repeat (Head url timeout) (S k), Returned true).
Proof.
  intros net url timeout retries k Hk Hgo H200.
  unfold check_url_with_requests. rewrite (range_split retries k Hk).
  rewrite attempt_loop_skip; [|lia|intros j Hj; apply Hgo; lia].
  rewrite attempt_loop_unfold, attempt_body_control.
  rewrite (attempt_body_response net url timeout retries _ 200)
    by (rewrite Nat2Z.id; exact H200).
  rewrite Nat2Z.id, H200. unfold trace_of, result_of. simpl fst. simpl snd.
  rewrite <- repeat_cons. reflexivity.
Qed.

Lemma check_url_stops_at_first_200_witness :
  check_url_with_requests flaky (lit "http://a.example") 5 5
  = (repeat (Head (lit "http://a.example") 5) 3, Returned true).
Proof.
  apply (check_url_stops_at_first_200 flaky (lit "http://a.example") 5 5 2).
  - simpl. lia.
  - intros j Hj. destruct j as [|[|j]]; [reflexivity|reflexivity|lia].
  - reflexivity.
Defined.

(** X3: an exception that is not a [requests.RequestException] is not
    retried: when the attempts before attempt [k] go on and attempt [k],
    within the range, raises such an exception, the call raises it after
    exactly [k + 1] requests, without a message. *)
Theorem check_url_propagates_other_exceptions :
  forall (net : transport) (url : str) (timeout retries : Z) (k : nat)
         (e : exn),
    (k < Z.to_nat retries)%nat ->
    (forall j, (j < k)%nat -> goes_on (net url timeout j) = true) ->
    net url timeout k = Raises e ->
    is_RequestException e = false ->
    check_url_with_requests net url timeout retries
    = (repeat (Head url timeout) (S k), Raised e).
Proof.
  intros net url timeout retries k e Hk Hgo Hraise He.
  unfold check_url_with_requests. rewrite (range_split retries k Hk).
  rewrite attempt_loop_skip; [|lia|intros j Hj; apply Hgo; lia].
  rewrite attempt_loop_unfold. unfold attempt_body.
  rewrite Nat2Z.id, Hraise, He. unfold trace_of, result_of. simpl fst. simpl snd.
  rewrite <- repeat_cons. reflexivity.
Qed.

Lemma check_url_propagates_other_exceptions_witness :
  check_url_with_requests crashing (lit "http://a.example") 5 3
  = (repeat (Head (lit "http://a.example") 5) 2, Raised ValueError).
Proof.
  apply (check_url_propagates_other_exceptions crashing
           (lit "http://a.example") 5 3 1 ValueError).
  - simpl. lia.
  - intros j Hj. destruct j as [|j]; [reflexivity|lia].
  - reflexivity.
  - reflexivity.
Defined.

(** X4: an error message is printed only for the last attempt of the range:
    if the call prints a message, the message is the error of the URL, the
    exception in it is the [RequestException] that attempt [retries - 1]
    raised, all [retries] requests were made, and the call returns [False]. *)
Theorem error_message_only_for_last_attempt :
  forall (net : transport) (url : str) (timeout retries : Z) (m : message),
    In (Print m) (trace_of (check_url_with_requests net url timeout retries)) ->
    exists e,
      m = ErrorChecking url e
      /\ net url timeout (Z.to_nat (retries - 1)) = Raises e
      /\ is_RequestException e = true
      /\ result_of (check_url_with_requests net url timeout retries)
         = Returned false
      /\ attempts (check_url_with_requests net url timeout retries)
         = Z.to_nat retries.
Proof.
  intros net url timeout retries m Hin.
  apply (attempt_loop_message net url timeout retries 0 (Z.to_nat retries) m);
    [reflexivity|exact Hin].
Qed.

Lemma error_message_only_for_last_attempt_witness :
  exists e,
    ErrorChecking (lit "http://dead.example") Timeout
    = ErrorChecking (lit "http://dead.example") e
    /\ always_fails Timeout (lit "http://dead.example") 5 (Z.to_nat (3 - 1))
       = Raises e
    /\ is_RequestException e = true
    /\ result_of (check_url_with_requests (always_fails Timeout)
                    (lit "http://dead.example") 5 3) = Returned false
    /\ attempts (check_url_with_requests (always_fails Timeout)
                   (lit "http://dead.example") 5 3) = Z.to_nat 3.
Proof.
  apply (error_message_only_for_last_attempt (always_fails Timeout)
           (lit "http://dead.example") 5 3).
  right; right; right; left. reflexivity.
Defined.

(** X5: a URL that answers every request with a status other than 200 costs
    exactly [retries] requests and is reported dead without any message:
    unlike exceptions, bad statuses are never printed. *)
Theorem non_200_statuses_fail_silently :
  forall (net : transport) (url : str) (timeout retries : Z),
    (forall k, (k < Z.to_nat retries)%nat ->
       exists code, net url timeout k = Response code /\ code <> 200) ->
    check_url_with_requests net url timeout retries
    = (repeat (Head url timeout) (Z.to_nat retries), Returned false).
Proof.
  intros net url timeout retries Hst. unfold check_url_with_requests, range.
  assert (H : forall n s, (s + n)%nat = Z.to_nat retries ->
            attempt_loop net url timeout retries (map Z.of_nat (seq s n))
            = (repeat (Head url timeout) n, Returned false)).
  { induction n as [|n IH]; intros s Hs; [reflexivity|].
    simpl seq. simpl map. rewrite attempt_loop_unfold.
    destruct (Hst s) as (code & Hc & Hne); [lia|].
    rewrite attempt_body_control.
    rewrite (attempt_body_response net url timeout retries _ code)
      by (rewrite Nat2Z.id; exact Hc).
    rewrite Nat2Z.id, Hc.
    destruct (code =? 200) eqn:E; [apply Z.eqb_eq in E; contradiction|].
    rewrite IH by lia. reflexivity. }
  apply H. reflexivity.
Qed.

Lemma non_200_statuses_fail_silently_witness :
  check_url_with_requests (always_status 404) (lit "http://a.example") 5 3
  = (repeat (Head (lit "http://a.example") 5) (Z.to_nat 3), Returned false).
Proof.
  apply (non_200_statuses_fail_silently (always_status 404)
           (lit "http://a.example") 5 3).
  intros k _. exists 404. split; [reflexivity|lia].
Defined.

(** ** One task, further *)

Lemma getitem_out_of_range {A} (l : list A) (i : Z) :
  i < - Z.of_nat (List.length l) \/ Z.of_nat (List.length l) <= i ->
  getitem l i = raise IndexError.
Proof.
  intros H. unfold getitem.
  destruct (i <? 0) eqn:E.
  - apply Z.ltb_lt in E.
    destruct (0 <=? i + Z.of_nat (List.length l)) eqn:E1;
      [apply Z.leb_le in E1; lia|reflexivity].
  - apply Z.ltb_ge in E.
    destruct (i <? Z.of_nat (List.length l)) eqn:E1;
      [apply Z.ltb_lt in E1; lia|].
    rewrite andb_false_r. reflexivity.
Qed.

(** The whole of a task on an index that Python accepts. *)
Lemma process_stream_unfold net lines i timeout verbose retries :
  - Z.of_nat (List.length lines) <= i < Z.of_nat (List.length lines) ->
  - Z.of_nat (List.length lines) <= i - 1 ->
  let url := strip (line_at lines i) in
  process_stream net i lines timeout verbose retries =
  match check_url_with_requests net url timeout retries with
  | (t, Returned true) =>
      (t ++ (if verbose then [Print (LiveValid url)] else []),
       Returned (entry_lines lines i))
  | (t, Returned false) =>
      (t ++ (if verbose then [Print (DeadInvalid url)] else []), Returned [])
  | (t, Raised e) => (t, Raised e)
  end.
Proof.
  intros Hi Hi1 url. unfold process_stream.
  rewrite !(getitem_line_at lines i) by lia.
  rewrite (getitem_line_at lines (i - 1)) by lia.
  unfold bind at 1. cbn [ret]. fold url.
  destruct (check_url_with_requests net url timeout retries) as [t [[|]|e]];
    destruct verbose; simpl; rewrite ?app_nil_r; reflexivity.
Qed.

(** X6: called with an index outside the list, [process_stream] raises
    [IndexError] at once: no request is made and nothing is printed. *)
Theorem process_stream_index_out_of_range :
  forall (net : transport) (index : Z) (lines : list str) (timeout : Z)
         (verbose : bool) (retries : Z),
    index < - Z.of_nat (List.length lines)
    \/ Z.of_nat (List.length lines) <= index ->
    process_stream net index lines timeout verbose retries
    = ([], Raised IndexError).
Proof.
  intros net index lines timeout verbose retries H. unfold process_stream.
  rewrite (getitem_out_of_range lines index H). reflexivity.
Qed.

Lemma process_stream_index_out_of_range_witness :
  process_stream (always_status 200) 4 scenario_lines 5 true 3
  = ([], Raised IndexError).
Proof.
  apply (process_stream_index_out_of_range (always_status 200) 4
           scenario_lines 5 true 3).
  right. simpl. lia.
Defined.

(** X7: for an index of the list, [verbose] changes nothing but the prints:
    the result and the requests are the same with and without it; without it
    the task does exactly what the probe of the trimmed line does; with it the
    task prints one more line at the end, [Live/Valid] or [Dead/Invalid] as
    the probe returned, and none when the probe raised. *)
Theorem verbose_only_adds_one_print :
  forall (net : transport) (index : Z) (lines : list str)
         (timeout retries : Z),
    0 <= index < Z.of_nat (List.length lines) ->
    let url := strip (line_at lines index) in
    let probe := check_url_with_requests net url timeout retries in
    result_of (process_stream net index lines timeout true retries)
    = result_of (process_stream net index lines timeout false retries)
    /\ attempts (process_stream net index lines timeout true retries)
       = attempts (process_stream net index lines timeout false retries)
    /\ trace_of (process_stream net index lines timeout false retries)
       = trace_of probe
    /\ trace_of (process_stream net index lines timeout true retries)
       = trace_of probe
           ++ match result_of probe with
              | Returned true => [Print (LiveValid url)]
              | Returned false => [Print (DeadInvalid url)]
              | Raised _ => []
              end.
Proof.
  intros net index lines timeout retries Hi url probe.
  rewrite !process_stream_unfold by lia.
  fold url. fold probe. unfold attempts.
  destruct probe as [t [[|]|e]]; unfold trace_of, result_of; simpl;
    rewrite ?app_nil_r, ?filter_app; simpl; rewrite ?app_nil_r; auto.
Qed.

Lemma verbose_only_adds_one_print_witness :
  result_of (process_stream (always_status 200) 3 scenario_lines 5 true 3)
  = result_of (process_stream (always_status 200) 3 scenario_lines 5 false 3).
Proof.
  refine (proj1 (verbose_only_adds_one_print (always_status 200) 3
                   scenario_lines 5 3 _)).
  simpl. lia.
Defined.

(** ** The tasks and the pool, further *)

Lemma in_url_indices lines i :
  In i (url_indices lines)
  <-> 0 <= i < Z.of_nat (List.length lines)
      /\ startswith (line_at lines i) (lit "http") = true.
Proof.
  split.
  - intros H. pose proof (url_indices_in_range lines i H) as Hr.
    split; [exact Hr|].
    unfold url_indices in H. apply in_map_iff in H.
    destruct H as ([j a] & Hj & H). cbn [fst] in Hj. subst j.
    apply filter_In in H. destruct H as [H Hhttp]. cbn [snd] in Hhttp.
    apply in_enumerate_from in H. destruct H as [_ H].
    rewrite Z.sub_0_r in H.
    rewrite line_at_in_range by exact Hr.
    rewrite (nth_error_nth lines (Z.to_nat i) [] H). exact Hhttp.
  - intros [Hr Hhttp]. unfold url_indices. apply in_map_iff.
    exists (i, line_at lines i). split; [reflexivity|].
    apply filter_In. split; [|exact Hhttp].
    apply in_enumerate_from. split; [lia|].
    rewrite Z.sub_0_r, line_at_in_range by exact Hr.
    apply nth_error_nth'. lia.
Qed.

Lemma line_at_In lines j :
  - Z.of_nat (List.length lines) <= j < Z.of_nat (List.length lines) ->
  In (line_at lines j) lines.
Proof.
  intros H. unfold line_at. destruct (Z_lt_le_dec j 0).
  - rewrite (getitem_wraps lines j []) by lia. simpl. apply nth_In. lia.
  - rewrite (getitem_in_range lines j []) by lia. simpl. apply nth_In. lia.
Qed.

Lemma selected_sorted {A} (f : Z * A -> bool) (l : list A) i :
  StronglySorted Z.lt (map fst (filter f (enumerate_from i l))).
Proof.
  revert i. induction l as [|x l IH]; intros i; simpl; [constructor|].
  destruct (f (i, x)); [|apply IH].
  simpl. constructor; [apply IH|].
  apply Forall_forall. intros j Hj. apply in_selected in Hj. lia.
Qed.

(** X8: the tasks are submitted in the order of the file: the indices for
    which [check_streams] submits a task are strictly increasing. *)
Theorem tasks_submitted_in_file_order :
  forall (lines : list str), StronglySorted Z.lt (url_indices lines).
Proof. intros lines. apply selected_sorted. Qed.

(** What [check_streams] computes, for a schedule it accepts. *)
Lemma check_streams_unfold w lines mw timeout verbose retries sched res :
  check_streams w lines mw timeout verbose retries sched = Some res ->
  (mw <= 0 /\ res = Raised ValueError)
  \/ (0 < mw
      /\ exists p,
           run mw sched (submit_all (url_indices lines)) = Some p
           /\ all_done p = true
           /\ Permutation (yielded p) (url_indices lines)
           /\ res = collect
                      (fun i => process_stream (w i) i lines timeout verbose
                                  retries)
                      (yielded p) []).
Proof.
  unfold check_streams. destruct (mw <=? 0) eqn:E.
  - intros H. injection H as <-. left. apply Z.leb_le in E. auto.
  - apply Z.leb_gt in E.
    destruct (run mw sched (submit_all (url_indices lines))) as [p|] eqn:Hrun;
      [|discriminate].
    destruct (all_done p) eqn:Hdone; [|discriminate].
    intros H. injection H as <-. right. split; [lia|].
    exists p. repeat split; try assumption.
    apply run_invariant in Hrun. destruct Hrun as (Hperm & _ & _).
    rewrite (all_done_content p Hdone) in Hperm.
    unfold content, submit_all in Hperm. simpl in Hperm.
    rewrite !app_nil_r in Hperm. symmetry. exact Hperm.
Qed.

Lemma collect_all_returned (task : Z -> M (list str)) order acc out :
  collect task order acc = Returned out ->
  forall i, In i order -> exists ls, result_of (task i) = Returned ls.
Proof.
  revert acc. induction order as [|j order IH]; intros acc H i Hi;
    [destruct Hi|].
  simpl in H. destruct (result_of (task j)) as [ls|e] eqn:E; [|discriminate].
  destruct Hi as [<-|Hi]; [eexists; exact E|].
  apply (IH _ H i Hi).
Qed.

(** X9: a file without a line that begins with ["http"], the empty file
    among them, gives an empty output: with at least one worker the call
    returns, submits no task, and writes no line, whatever the schedule. *)
Theorem no_url_line_empty_output :
  forall (w : world) (lines : list str) (max_workers timeout : Z)
         (verbose : bool) (retries : Z),
    (forall l, In l lines -> startswith l (lit "http") = false) ->
    0 < max_workers ->
    check_streams w lines max_workers timeout verbose retries []
    = Some (Returned [])
    /\ forall sched res,
         check_streams w lines max_workers timeout verbose retries sched
         = Some res ->
         res = Returned [].
Proof.
  intros w lines mw timeout verbose retries Hno Hmw.
  assert (Hnil : url_indices lines = []).
  { destruct (url_indices lines) as [|i l] eqn:E; [reflexivity|].
    assert (Hi : In i (url_indices lines)) by (rewrite E; left; reflexivity).
    apply in_url_indices in Hi. destruct Hi as [Hr Hhttp].
    rewrite (Hno (line_at lines i)) in Hhttp; [discriminate|].
    apply line_at_In. lia. }
  split.
  - unfold check_streams. rewrite Hnil.
    destruct (mw <=? 0) eqn:E; [apply Z.leb_le in E; lia|]. reflexivity.
  - intros sched res H. apply check_streams_unfold in H.
    destruct H as [[H _]|(_ & p & _ & _ & Hperm & ->)]; [lia|].
    rewrite Hnil in Hperm. apply Permutation_sym, Permutation_nil in Hperm.
    rewrite Hperm.
    reflexivity.
Qed.

Lemma no_url_line_empty_output_witness :
  check_streams scenario_world [line "#EXTM3U"; line "#EXTINF:-1,A"] 10 5 false 3 []
  = Some (Returned []).
Proof.
  refine (proj1 (no_url_line_empty_output scenario_world
                   [line "#EXTM3U"; line "#EXTINF:-1,A"] 10 5 false 3 _ _)).
  - intros l [<-|[<-|[]]]; reflexivity.
  - lia.
Defined.

Lemma in_flat_map_entry_lines lines order l :
  In l (flat_map (entry_lines lines) order) ->
  exists i, In i order /\ (l = line_at lines (i - 1) \/ l = line_at lines i).
Proof.
  intros H. apply in_flat_map in H. destruct H as (i & Hi & Hl).
  exists i. split; [exact Hi|].
  destruct Hl as [<-|[<-|[]]]; auto.
Qed.

(** X10: [check_streams] writes only lines it read: every line of the output
    is a line of the input file, unchanged. *)
Theorem output_lines_come_from_input :
  forall (w : world) (lines : list str) (max_workers timeout : Z)
         (verbose : bool) (retries : Z) (sched : list action)
         (out : list str),
    check_streams w lines max_workers timeout verbose retries sched
    = Some (Returned out) ->
    forall l, In l out -> In l lines.
Proof.
  intros w lines mw timeout verbose retries sched out Hcs l Hl.
  destruct (check_streams_returned _ _ _ _ _ _ _ _ Hcs) as (p & _ & Hperm & ->).
  apply in_flat_map_entry_lines in Hl. destruct Hl as (i & Hi & Hl).
  apply filter_In in Hi. destruct Hi as [Hi _].
  apply (Permutation_in _ Hperm) in Hi.
  apply url_indices_in_range in Hi.
  destruct Hl as [-> | ->]; apply line_at_In; lia.
Qed.

Lemma output_lines_come_from_input_witness :
  In (line "http://live.example") scenario_lines.
Proof.
  apply (output_lines_come_from_input scenario_world scenario_lines 2 5 false 3
           second_first
           [line "#EXTINF:-1,B"; line "http://live.example"]).
  - reflexivity.
  - right. left. reflexivity.
Defined.

Lemma nth_error_entry_lines lines order k l :
  nth_error (flat_map (entry_lines lines) order) (2 * k + 1) = Some l ->
  exists i,
    In i order /\ l = line_at lines i
    /\ nth_error (flat_map (entry_lines lines) order) (2 * k)
       = Some (line_at lines (i - 1)).
Proof.
  revert k. induction order as [|i order IH]; intros k H.
  - destruct k; discriminate H.
  - destruct k as [|k].
    + simpl in H. injection H as <-. exists i. simpl. auto.
    + replace (2 * S k + 1)%nat with (S (S (2 * k + 1))) in H by lia.
      replace (2 * S k)%nat with (S (S (2 * k))) by lia.
      simpl in H. apply IH in H. destruct H as (j & Hj & Hl & Hm).
      exists j. simpl. auto.
Qed.

(** X11: the output alternates: every line at an odd position of what
    [check_streams] writes (the second, the fourth, ...) is the URL line of a
    submitted task, so it begins with ["http"], and the line just before it
    in the output is the line [lines[i - 1]] of that task. *)
Theorem output_odd_lines_are_url_lines :
  forall (w : world) (lines : list str) (max_workers timeout : Z)
         (verbose : bool) (retries : Z) (sched : list action)
         (out : list str),
    check_streams w lines max_workers timeout verbose retries sched
    = Some (Returned out) ->
    forall k l,
      nth_error out (2 * k + 1) = Some l ->
      startswith l (lit "http") = true
      /\ exists i,
           In i (url_indices lines)
           /\ verdict w lines timeout retries i = true
           /\ l = line_at lines i
           /\ nth_error out (2 * k) = Some (line_at lines (i - 1)).
Proof.
  intros w lines mw timeout verbose retries sched out Hcs k l Hl.
  destruct (check_streams_returned _ _ _ _ _ _ _ _ Hcs) as (p & _ & Hperm & ->).
  apply nth_error_entry_lines in Hl. destruct Hl as (i & Hi & -> & Hm).
  apply filter_In in Hi. destruct Hi as [Hi Hlive].
  apply (Permutation_in _ Hperm) in Hi.
  split; [apply in_url_indices, Hi|].
  exists i. auto.
Qed.

Lemma output_odd_lines_are_url_lines_witness :
  startswith (line "http://live.example") (lit "http") = true.
Proof.
  refine (proj1 (output_odd_lines_are_url_lines scenario_world scenario_lines
                   2 5 false 3 second_first
                   [line "#EXTINF:-1,B"; line "http://live.example"] _
                   0%nat (line "http://live.example") _));
    reflexivity.
Defined.

(** X12: the interleaving of the threads changes the order of the output and
    nothing else: when [check_streams] returns on one complete schedule, it
    returns on every other one, and the two outputs have the same lines the
    same number of times. *)
Theorem output_independent_of_schedule_up_to_order :
  forall (w : world) (lines : list str) (max_workers timeout : Z)
         (verbose : bool) (retries : Z) (sched1 sched2 : list action)
         (out1 : list str) (res2 : result (list str)),
    check_streams w lines max_workers timeout verbose retries sched1
    = Some (Returned out1) ->
    check_streams w lines max_workers timeout verbose retries sched2
    = Some res2 ->
    exists out2,
      res2 = Returned out2
      /\ Permutation out1 out2
      /\ List.length out1 = List.length out2.
Proof.
  intros w lines mw timeout verbose retries s1 s2 out1 res2 H1 H2.
  pose proof (check_streams_unfold _ _ _ _ _ _ _ _ H1) as U1.
  destruct U1 as [[_ U1]|(Hmw & p1 & _ & _ & Hperm1 & U1)]; [discriminate|].
  pose proof (check_streams_unfold _ _ _ _ _ _ _ _ H2) as U2.
  destruct U2 as [[U2 _]|(_ & p2 & _ & _ & Hperm2 & U2)]; [lia|].
  symmetry in U1.
  pose proof (collect_all_returned _ _ _ _ U1) as Hall.
  destruct (collect_absorbed w lines timeout verbose retries (yielded p2) [])
    as [out2 Hout2].
  { intros i Hi. apply Hall.
    apply (Permutation_in _ (Permutation_sym Hperm1)).
    apply (Permutation_in _ Hperm2 Hi). }
  rewrite Hout2 in U2. subst res2. exists out2.
  destruct (check_streams_returned _ _ _ _ _ _ _ _ H1) as (q1 & Hr1 & _ & E1).
  destruct (check_streams_returned _ _ _ _ _ _ _ _ H2) as (q2 & Hr2 & _ & E2).
  assert (Hp : Permutation out1 out2).
  { rewrite E1, E2. apply Permutation_flat_map, filter_perm.
    apply check_streams_unfold in H1, H2.
    destruct H1 as [[? _]|(_ & r1 & Hrun1 & _ & Hq1 & _)]; [lia|].
    destruct H2 as [[? _]|(_ & r2 & Hrun2 & _ & Hq2 & _)]; [lia|].
    rewrite Hr1 in Hrun1. injection Hrun1 as <-.
    rewrite Hr2 in Hrun2. injection Hrun2 as <-.
    rewrite Hq1. symmetry. exact Hq2. }
  split; [reflexivity|]. split; [exact Hp|apply Permutation_length, Hp].
Qed.

Lemma output_independent_of_schedule_up_to_order_witness :
  exists out2,
    Returned [line "#EXTINF:-1,B"; line "http://live.example"] = Returned out2
    /\ Permutation [line "#EXTINF:-1,B"; line "http://live.example"] out2
    /\ List.length [line "#EXTINF:-1,B"; line "http://live.example"]
       = List.length out2.
Proof.
  apply (output_independent_of_schedule_up_to_order scenario_world
           scenario_lines 2 5 false 3 second_first (sequential [1; 3]));
    reflexivity.
Defined.

(** A task whose probe raises is met by the loop of lines 53-54 on every
    schedule: the call cannot return. *)
Lemma raising_task_aborts w lines mw timeout verbose retries i e sched res :
  In i (url_indices lines) ->
  result_of (check_url_with_requests (w i) (strip (line_at lines i))
               timeout retries) = Raised e ->
  check_streams w lines mw timeout verbose retries sched = Some res ->
  exists e', res = Raised e'.
Proof.
  intros Hi He Hcs.
  destruct res as [out|e']; [|eexists; reflexivity]. exfalso.
  pose proof (check_streams_unfold _ _ _ _ _ _ _ _ Hcs) as U.
  destruct U as [[_ U]|(_ & p & _ & _ & Hperm & U)]; [discriminate|].
  symmetry in U.
  destruct (collect_all_returned _ _ _ _ U i) as [ls Hls].
  { apply (Permutation_in _ (Permutation_sym Hperm) Hi). }
  rewrite process_stream_result in Hls
    by (apply url_indices_in_range, Hi).
  rewrite He in Hls. discriminate.
Qed.

(** X13: one task that raises makes the whole call raise: when the probe of a
    submitted task raises (an exception that is not a [RequestException]),
    [check_streams] raises on every schedule it completes, so that no output
    is written for the file. *)
Theorem one_raising_task_aborts_the_file :
  forall (w : world) (lines : list str) (max_workers timeout : Z)
         (verbose : bool) (retries : Z) (i : Z) (e : exn)
         (sched : list action) (res : result (list str)),
    In i (url_indices lines) ->
    result_of (check_url_with_requests (w i) (strip (line_at lines i))
                 timeout retries) = Raised e ->
    check_streams w lines max_workers timeout verbose retries sched
    = Some res ->
    exists e', res = Raised e'.
Proof.
  intros w lines mw timeout verbose retries i e sched res Hi He Hcs.
  exact (raising_task_aborts w lines mw timeout verbose retries i e sched res
           Hi He Hcs).
Qed.

Lemma one_raising_task_aborts_the_file_witness :
  exists e', Raised ValueError = @Raised (list str) e'.
Proof.
  apply (one_raising_task_aborts_the_file broken_world scenario_lines 2 5 false 3
           1 ValueError second_first (Raised ValueError)).
  - left. reflexivity.
  - reflexivity.
  - reflexivity.
Defined.

(** A transition keeps the workers within their number and takes the tasks
    from the head of the queue. *)
Lemma step_bound mw a p p' :
  step mw a p = Some p' ->
  (Z.of_nat (List.length (running p)) <= Z.max 0 mw ->
   Z.of_nat (List.length (running p')) <= Z.max 0 mw)
  /\ exists taken, queue p = taken ++ queue p'.
Proof.
  destruct p as [q r f y]. destruct a as [|i|i]; simpl.
  - destruct q as [|i q]; [discriminate|].
    destruct (Z.of_nat (List.length r) <? mw) eqn:E; [|discriminate].
    apply Z.ltb_lt in E. intros H. injection H as <-. simpl. split.
    + intros _. rewrite length_app. simpl. lia.
    + exists [i]. reflexivity.
  - destruct (take i r) as [r'|] eqn:E; [|discriminate].
    apply take_Some in E. destruct E as [_ E].
    intros H. injection H as <-. simpl. split; [lia|].
    exists []. reflexivity.
  - destruct (take i f) as [f'|] eqn:E; [|discriminate].
    intros H. injection H as <-. simpl. split; [lia|].
    exists []. reflexivity.
Qed.

Lemma run_bound mw sched p p' :
  run mw sched p = Some p' ->
  (Z.of_nat (List.length (running p)) <= Z.max 0 mw ->
   Z.of_nat (List.length (running p')) <= Z.max 0 mw)
  /\ exists taken, queue p = taken ++ queue p'.
Proof.
  revert p. induction sched as [|a sched IH]; intros p H; simpl in H.
  - injection H as <-. split; [auto|]. exists []. reflexivity.
  - destruct (step mw a p) as [p1|] eqn:E; [|discriminate].
    apply step_bound in E. destruct E as [E1 [t1 E2]].
    destruct (IH p1 H) as [H1 [t2 H2]]. split; [auto|].
    exists (t1 ++ t2). rewrite E2, H2, app_assoc. reflexivity.
Qed.

(** X14: at every point of every execution of the pool, complete or not, at
    most [max_workers] tasks are running, every submitted task is in exactly
    one of the four stages (waiting, running, finished, yielded), and the
    tasks still waiting are the end of the submitted list: tasks start in the
    order of the file. *)
Theorem pool_invariants :
  forall (max_workers : Z) (tasks : list Z) (sched : list action) (p : pool),
    run max_workers sched (submit_all tasks) = Some p ->
    Z.of_nat (List.length (running p)) <= Z.max 0 max_workers
    /\ Permutation (content p) tasks
    /\ exists started,
         tasks = started ++ queue p
         /\ Permutation started (running p ++ finished p ++ yielded p).
Proof.
  intros mw tasks sched p Hrun.
  destruct (run_bound _ _ _ _ Hrun) as [Hb [started Hq]].
  destruct (run_invariant _ _ _ _ Hrun) as (Hperm & _ & _).
  simpl in Hb, Hq. unfold content at 1 in Hperm. simpl in Hperm.
  rewrite !app_nil_r in Hperm.
  split; [apply Hb; lia|]. split; [symmetry; exact Hperm|].
  exists started. split; [exact Hq|].
  unfold content in Hperm. rewrite Hq in Hperm.
  apply (Permutation_app_inv_r (queue p)).
  rewrite Hperm. apply Permutation_app_comm.
Qed.

Lemma pool_invariants_witness :
  Z.of_nat (List.length (running (mkPool [5] [3] [] [1]))) <= Z.max 0 2.
Proof.
  refine (proj1 (pool_invariants 2 [1; 3; 5] [Start; Start; Finish 1; Yield 1]
                   (mkPool [5] [3] [] [1]) _)).
  reflexivity.
Defined.

(** ** Files as text *)

Lemma concat_lines_from cur text :
  List.concat (lines_from cur text) = cur ++ text.
Proof.
  revert cur. induction text as [|c text IH]; intros cur; simpl.
  - destruct cur; simpl; rewrite ?app_nil_r; reflexivity.
  - destruct (c =? 10)%N; simpl; rewrite IH, <- ?app_assoc; reflexivity.
Qed.

(** Facts on [universal_newlines] go by the length of the text, since a
    ["\r\n"] takes two characters at once. *)
Lemma universal_newlines_no_cr_upto n :
  forall text, (List.length text <= n)%nat ->
               ~ In 13%N (universal_newlines text).
Proof.
  induction n as [|n IH]; intros text Hlen.
  - destruct text; [simpl; tauto|simpl in Hlen; lia].
  - destruct text as [|c text]; [simpl; tauto|].
    simpl in Hlen. simpl universal_newlines.
    destruct (c =? 13)%N eqn:E.
    + destruct text as [|d text].
      * simpl. intros [H|[]]. discriminate H.
      * simpl in Hlen. destruct (d =? 10)%N.
        -- intros [H|H]; [discriminate H|]. apply (IH text); [lia|exact H].
        -- intros [H|H]; [discriminate H|].
           apply (IH (d :: text)); [simpl; lia|exact H].
    + apply N.eqb_neq in E. intros [H|H]; [congruence|].
      apply (IH text); [lia|exact H].
Qed.

Lemma universal_newlines_no_cr text : ~ In 13%N (universal_newlines text).
Proof. apply (universal_newlines_no_cr_upto (List.length text)). lia. Qed.

Lemma universal_newlines_id text :
  ~ In 13%N text -> universal_newlines text = text.
Proof.
  induction text as [|c text IH]; intros H; [reflexivity|].
  simpl. destruct (c =? 13)%N eqn:E.
  - apply N.eqb_eq in E. subst c. exfalso. apply H. left. reflexivity.
  - rewrite IH; [reflexivity|]. intros Hin. apply H. right. exact Hin.
Qed.

(** A text that ends with a line end still does once translated. *)
Lemma universal_newlines_last_upto n :
  forall text c, (List.length text <= n)%nat -> c = 10%N \/ c = 13%N ->
    exists u, universal_newlines (text ++ [c]) = u ++ [10%N].
Proof.
  induction n as [|n IH]; intros text c Hlen Hc.
  - destruct text; [|simpl in Hlen; lia].
    exists []. destruct Hc as [-> | ->]; reflexivity.
  - destruct text as [|x text].
    + exists []. destruct Hc as [-> | ->]; reflexivity.
    + simpl in Hlen. simpl app. simpl universal_newlines.
      destruct (x =? 13)%N.
      * destruct text as [|d text].
        -- simpl app. destruct Hc as [-> | ->]; simpl.
           ++ exists []. reflexivity.
           ++ exists [10%N]. reflexivity.
        -- simpl in Hlen. simpl app. cbv iota. destruct (d =? 10)%N.
           ++ destruct (IH text c) as [u Hu]; [lia|exact Hc|].
              rewrite Hu. exists (10%N :: u). reflexivity.
           ++ destruct (IH (d :: text) c) as [u Hu]; [simpl; lia|exact Hc|].
              simpl app in Hu. rewrite Hu. exists (10%N :: u). reflexivity.
      * destruct (IH text c) as [u Hu]; [lia|exact Hc|].
        rewrite Hu. exists (x :: u). reflexivity.
Qed.

(** The lines of a text that ends with its line end are all terminated. *)
Lemma lines_from_terminated text cur :
  ~ In 10%N cur -> ~ In 13%N cur -> ~ In 13%N text ->
  Forall terminated (lines_from cur (text ++ [10%N])).
Proof.
  revert cur. induction text as [|c text IH]; intros cur H10 H13 Ht.
  - simpl. constructor; [|constructor]. exists cur. auto.
  - simpl app. simpl lines_from. destruct (c =? 10)%N eqn:E.
    + apply N.eqb_eq in E. subst c. constructor.
      * exists cur. auto.
      * apply IH; simpl; try tauto. intros H. apply Ht. right. exact H.
    + apply N.eqb_neq in E. apply IH.
      * intros H. apply in_app_or in H. destruct H as [H|[H|[]]]; auto.
      * intros H. apply in_app_or in H. destruct H as [H|[H|[]]]; auto.
        apply Ht. left. exact H.
      * intros H. apply Ht. right. exact H.
Qed.

Lemma lines_from_line body rest cur :
  ~ In 10%N body ->
  lines_from cur (body ++ 10%N :: rest)
  = (cur ++ body ++ [10%N]) :: lines_from [] rest.
Proof.
  revert cur. induction body as [|c body IH]; intros cur H; simpl.
  - reflexivity.
  - destruct (c =? 10)%N eqn:E.
    + apply N.eqb_eq in E. subst c. exfalso. apply H. left. reflexivity.
    + rewrite IH by (intros Hin; apply H; right; exact Hin).
      rewrite <- app_assoc. reflexivity.
Qed.

(** Lines that are terminated are read back as they were written. *)
Lemma readlines_writelines lines :
  Forall terminated lines -> readlines (writelines lines) = lines.
Proof.
  intros H. unfold readlines, writelines.
  rewrite universal_newlines_id.
  - induction H as [|l lines (body & -> & H10 & _) _ IH]; [reflexivity|].
    simpl. rewrite <- app_assoc. simpl.
    rewrite lines_from_line by exact H10. simpl. rewrite IH. reflexivity.
  - intros Hin. apply in_concat in Hin. destruct Hin as (l & Hl & Hin).
    rewrite Forall_forall in H. destruct (H l Hl) as (body & -> & _ & H13).
    apply in_app_or in Hin. destruct Hin as [Hin|[Hin|[]]];
      [exact (H13 Hin)|discriminate Hin].
Qed.

(** The lines of a file that is empty or ends with a line end. *)
Lemma readlines_terminated text :
  text = [] \/ (exists t c, text = t ++ [c] /\ (c = 10%N \/ c = 13%N)) ->
  Forall terminated (readlines text).
Proof.
  intros [-> | (t & c & -> & Hc)]; [constructor|].
  unfold readlines.
  destruct (universal_newlines_last_upto (List.length t) t c) as [u Hu];
    [lia|exact Hc|].
  pose proof (universal_newlines_no_cr (t ++ [c])) as Hcr.
  rewrite Hu in *. apply lines_from_terminated; simpl; try tauto.
  intros H. apply Hcr. apply in_or_app. left. exact H.
Qed.

(** X15: from file to file: when the input file is empty or ends with a line
    end and [check_streams] returns, the text it writes, read again with
    [readlines], gives exactly the lines it wrote, two per live entry: no two
    lines run together in the output file. *)
Theorem output_file_reads_back :
  forall (w : world) (text : str) (max_workers timeout : Z) (verbose : bool)
         (retries : Z) (sched : list action) (written : str),
    text = [] \/ (exists t c, text = t ++ [c] /\ (c = 10%N \/ c = 13%N)) ->
    check_streams_text w text max_workers timeout verbose retries sched
    = Some (Returned written) ->
    exists live_lines,
      check_streams w (readlines text) max_workers timeout verbose retries sched
      = Some (Returned live_lines)
      /\ written = writelines live_lines
      /\ readlines written = live_lines
      /\ List.length (readlines written)
         = (2 * List.length
                  (filter (verdict w (readlines text) timeout retries)
                     (url_indices (readlines text))))%nat.
Proof.
  intros w text mw timeout verbose retries sched written Hend H.
  unfold check_streams_text in H.
  destruct (check_streams w (readlines text) mw timeout verbose retries sched)
    as [[live_lines|e]|] eqn:Hcs; try discriminate.
  injection H as <-. exists live_lines.
  assert (Hback : readlines (writelines live_lines) = live_lines).
  { apply readlines_writelines.
    pose proof (readlines_terminated text Hend) as Hterm.
    rewrite Forall_forall in *. intros l Hl. apply Hterm.
    destruct (check_streams_returned _ _ _ _ _ _ _ _ Hcs)
      as (p & _ & Hperm & ->).
    apply in_flat_map_entry_lines in Hl. destruct Hl as (i & Hi & Hl).
    apply filter_In in Hi. destruct Hi as [Hi _].
    apply (Permutation_in _ Hperm) in Hi.
    apply url_indices_in_range in Hi.
    destruct Hl as [-> | ->]; apply line_at_In; lia. }
  repeat split; try assumption.
  rewrite Hback.
  destruct (check_streams_returned _ _ _ _ _ _ _ _ Hcs) as (p & _ & Hperm & ->).
  rewrite length_entry_lines.
  rewrite (Permutation_length (filter_perm _ _ _ Hperm)). reflexivity.
Qed.

Lemma output_file_reads_back_witness :
  exists live_lines,
    check_streams scenario_world (readlines (writelines scenario_lines))
      2 5 false 3 second_first = Some (Returned live_lines)
    /\ writelines [line "#EXTINF:-1,B"; line "http://live.example"]
       = writelines live_lines
    /\ readlines (writelines [line "#EXTINF:-1,B"; line "http://live.example"])
       = live_lines
    /\ List.length
         (readlines
            (writelines [line "#EXTINF:-1,B"; line "http://live.example"]))
       = (2 * List.length
                (filter (verdict scenario_world
                           (readlines (writelines scenario_lines)) 5 3)
                   (url_indices (readlines (writelines scenario_lines)))))%nat.
Proof.
  apply (output_file_reads_back scenario_world (writelines scenario_lines)
           2 5 false 3 second_first).
  - right. exists (removelast (writelines scenario_lines)), 10%N.
    split; [reflexivity|left; reflexivity].
  - reflexivity.
Defined.

(** ** The combined playlist *)

Lemma combine_loop_done fs folder listing acc :
  (forall f, In f listing -> endswith f (lit ".m3u8") = true ->
             exists text, fs (path_join folder f) = File text) ->
  combine_loop fs folder listing acc =
  Done (acc ++ flat_map
                 (fun f => match fs (path_join folder f) with
                           | File text => readlines text
                           | _ => []
                           end)
                 (filter (fun f => endswith f (lit ".m3u8")) listing)).
Proof.
  revert acc. induction listing as [|f listing IH]; intros acc H.
  - simpl. rewrite app_nil_r. reflexivity.
  - simpl. destruct (endswith f (lit ".m3u8")) eqn:E.
    + destruct (H f (or_introl eq_refl) E) as [text Ht].
      unfold open_readlines. rewrite Ht. simpl. rewrite Ht.
      rewrite IH by (intros; apply H; [right|]; assumption).
      rewrite <- app_assoc. reflexivity.
    + apply IH. intros; apply H; [right|]; assumption.
Qed.

(** X16: when every listed name that ends with [.m3u8] is a readable file,
    [combine_m3u8_files] passes to [writelines] the lines of these files, file
    after file in the order of the listing, and the text written is the
    concatenation of their texts (line ends translated to ["\n"]): nothing is
    added between two files, and the other entries contribute nothing. *)
Theorem combine_concatenates_m3u8_files :
  forall (fs : filesystem) (output_folder : str) (listing : list str),
    (forall f, In f listing -> endswith f (lit ".m3u8") = true ->
               exists text, fs (path_join output_folder f) = File text) ->
    let chosen := filter (fun f => endswith f (lit ".m3u8")) listing in
    exists combined_lines,
      combine_m3u8_files fs output_folder listing = Done combined_lines
      /\ combined_lines
         = flat_map (fun f => match fs (path_join output_folder f) with
                              | File text => readlines text
                              | _ => []
                              end) chosen
      /\ writelines combined_lines
         = List.concat
             (map (fun f => match fs (path_join output_folder f) with
                            | File text => universal_newlines text
                            | _ => []
                            end) chosen).
Proof.
  intros fs folder listing H chosen.
  eexists. split; [apply combine_loop_done, H|]. split; [reflexivity|].
  simpl app. unfold writelines, chosen.
  induction (filter (fun f => endswith f (lit ".m3u8")) listing)
    as [|f l IH]; [reflexivity|].
  simpl. rewrite concat_app, IH. f_equal.
  destruct (fs (path_join folder f)); try reflexivity.
  unfold readlines. apply concat_lines_from.
Qed.

Lemma combine_concatenates_m3u8_files_witness :
  exists combined_lines,
    combine_m3u8_files sample_fs (lit "out")
      [lit "live_b.m3u8"; lit "live_c.m3u"; lit "live_a.m3u8"]
    = Done combined_lines
    /\ writelines combined_lines
       = line "#EXTINF:-1,B" ++ line "http://b.example"
         ++ line "#EXTINF:-1,A" ++ lit "http://a.example".
Proof.
  destruct (combine_concatenates_m3u8_files sample_fs (lit "out")
              [lit "live_b.m3u8"; lit "live_c.m3u"; lit "live_a.m3u8"])
    as (combined & H1 & _ & H3).
  - intros f [<-|[<-|[<-|[]]]] E; try discriminate E; eexists; reflexivity.
  - exists combined. split; [exact H1|]. rewrite H3. reflexivity.
Defined.

(** X17: [combine_m3u8_files] opens only the listed names that end with
    [.m3u8]: two file systems that agree on these paths give the same result,
    whatever the other paths are. *)
Theorem combine_reads_only_m3u8_files :
  forall (fs fs' : filesystem) (output_folder : str) (listing : list str),
    (forall f, In f listing -> endswith f (lit ".m3u8") = true ->
               fs (path_join output_folder f)
               = fs' (path_join output_folder f)) ->
    combine_m3u8_files fs output_folder listing
    = combine_m3u8_files fs' output_folder listing.
Proof.
  intros fs fs' folder listing. unfold combine_m3u8_files.
  generalize (@nil str) as acc.
  induction listing as [|f listing IH]; intros acc H; [reflexivity|].
  simpl. destruct (endswith f (lit ".m3u8")) eqn:E.
  - unfold open_readlines. rewrite (H f (or_introl eq_refl) E).
    destruct (fs' (path_join folder f)); try reflexivity.
    apply IH. intros; apply H; [right|]; assumption.
  - apply IH. intros; apply H; [right|]; assumption.
Qed.

Lemma combine_reads_only_m3u8_files_witness :
  combine_m3u8_files sample_fs (lit "out") [lit "live_b.m3u8"; lit "notes.txt"]
  = combine_m3u8_files
      (fun path => if startswith path (lit "out/notes.txt")
                   then Directory else sample_fs path)
      (lit "out") [lit "live_b.m3u8"; lit "notes.txt"].
Proof.
  apply (combine_reads_only_m3u8_files sample_fs
           (fun path => if startswith path (lit "out/notes.txt")
                        then Directory else sample_fs path)
           (lit "out") [lit "live_b.m3u8"; lit "notes.txt"]).
  intros f [<-|[<-|[]]] E; [reflexivity|discriminate E].
Defined.

(** X18: one listed name that ends with [.m3u8] and cannot be read as a text
    file (a directory, a file that is gone, a file that is not UTF-8) makes
    [combine_m3u8_files] fail: no combined playlist is written. *)
Theorem combine_fails_on_unreadable_entry :
  forall (fs : filesystem) (output_folder : str) (listing : list str)
         (f : str),
    In f listing ->
    endswith f (lit ".m3u8") = true ->
    (forall text, fs (path_join output_folder f) <> File text) ->
    exists e, combine_m3u8_files fs output_folder listing = Failed e.
Proof.
  intros fs folder listing f Hin Hend Hbad. unfold combine_m3u8_files.
  generalize (@nil str) as acc.
  induction listing as [|g listing IH]; intros acc; [destruct Hin|].
  simpl. destruct Hin as [->|Hin].
  - rewrite Hend. unfold open_readlines.
    destruct (fs (path_join folder f)) as [text| | |];
      try (eexists; reflexivity).
    exfalso. apply (Hbad text). reflexivity.
  - destruct (endswith g (lit ".m3u8")); [|apply IH, Hin].
    destruct (open_readlines fs (path_join folder g));
      [apply IH, Hin|eexists; reflexivity].
Qed.

Lemma combine_fails_on_unreadable_entry_witness :
  exists e,
    combine_m3u8_files sample_fs (lit "out") [lit "live_a.m3u8"; lit "dir.m3u8"]
    = Failed e.
Proof.
  apply (combine_fails_on_unreadable_entry sample_fs (lit "out")
           [lit "live_a.m3u8"; lit "dir.m3u8"] (lit "dir.m3u8")).
  - right. left. reflexivity.
  - reflexivity.
  - intros text H. discriminate H.
Defined.

(** ** The folder *)

Lemma endswith_slash a :
  endswith a (lit "/") = true -> exists a', a = a' ++ [47%N].
Proof.
  unfold endswith. change (rev (lit "/")) with [47%N].
  destruct (rev a) as [|c r] eqn:E; simpl; [discriminate|].
  rewrite andb_true_r. intros H. apply N.eqb_eq in H. subst c.
  exists (rev r). rewrite <- (rev_involutive a), E. reflexivity.
Qed.

(** The two shapes of a joined path. *)
Lemma path_join_input a f :
  path_join a f = f \/ exists a', path_join a f = a' ++ [47%N] ++ f.
Proof.
  unfold path_join. destruct (startswith f (lit "/")); [left; reflexivity|].
  destruct a as [|c a]; [left; reflexivity|].
  destruct (endswith (c :: a) (lit "/")) eqn:E.
  - apply endswith_slash in E. destruct E as [a' ->].
    right. exists a'. rewrite <- app_assoc. reflexivity.
  - right. exists (c :: a). reflexivity.
Qed.

Lemma path_join_output b f :
  exists pre, path_join b (live_name f) = pre ++ [95%N] ++ f.
Proof.
  unfold path_join, live_name.
  change (startswith (lit "live_" ++ f) (lit "/")) with false. cbv iota.
  change (lit "live_") with ([108%N; 105%N; 118%N; 101%N] ++ [95%N]).
  destruct b as [|c b].
  - exists [108%N; 105%N; 118%N; 101%N]. rewrite <- app_assoc. reflexivity.
  - destruct (endswith (c :: b) (lit "/")).
    + exists ((c :: b) ++ [108%N; 105%N; 118%N; 101%N]).
      rewrite <- !app_assoc. reflexivity.
    + exists ((c :: b) ++ lit "/" ++ [108%N; 105%N; 118%N; 101%N]).
      rewrite <- !app_assoc. reflexivity.
Qed.

Lemma path_join_differs a b f : path_join a f <> path_join b (live_name f).
Proof.
  destruct (path_join_output b f) as [pre ->].
  destruct (path_join_input a f) as [-> | [a' ->]]; intros H.
  - apply (f_equal (@List.length N)) in H.
    rewrite !length_app in H. simpl in H. unfold str, char in *. lia.
  - rewrite !app_assoc in H. apply app_inv_tail in H.
    apply app_inj_tail in H. destruct H as [_ H]. discriminate H.
Qed.

(** X19: [process_folder] calls [check_streams] for the listed names that end
    with one of the extensions and for no other, and never asks it to write to
    the path it reads: for every call, in whatever folders, the output path
    differs from the input path, its last part being [live_] and the name. *)
Theorem process_folder_never_overwrites_its_input :
  forall (input_folder output_folder : str) (extensions listing : list str)
         (input_file output_file : str),
    In (input_file, output_file)
       (process_folder_calls input_folder output_folder extensions listing) ->
    input_file <> output_file
    /\ exists filename,
         In filename listing
         /\ endswith_any filename extensions = true
         /\ input_file = path_join input_folder filename
         /\ output_file = path_join output_folder (live_name filename).
Proof.
  intros inf outf exts listing i o H. unfold process_folder_calls in H.
  apply in_map_iff in H. destruct H as (f & Hf & Hin).
  injection Hf as <- <-. apply filter_In in Hin. destruct Hin as [Hin Hext].
  split; [apply path_join_differs|]. exists f. auto.
Qed.

Lemma process_folder_never_overwrites_its_input_witness :
  lit "m3u8_dump/a.m3u8" <> lit "m3u8_dump/live_a.m3u8".
Proof.
  refine (proj1 (process_folder_never_overwrites_its_input
                   (lit "m3u8_dump") (lit "m3u8_dump")
                   [lit ".m3u"; lit ".m3u8"; lit ".mpd"; lit ".mp4"]
                   [lit "notes.txt"; lit "a.m3u8"]
                   (lit "m3u8_dump/a.m3u8") (lit "m3u8_dump/live_a.m3u8") _)).
  left. reflexivity.
Defined.

(** X20: the combined playlist takes the outputs of the [.m3u8] inputs only:
    the output name [live_<name>] ends with [.m3u8] exactly when the name
    does, so the outputs that [process_folder] writes for names ending with
    [.m3u], [.mpd] or [.mp4], three of its four default extensions, are not
    read by [combine_m3u8_files]. *)
Theorem combine_takes_outputs_of_m3u8_inputs_only :
  forall (filename : str),
    endswith (live_name filename) (lit ".m3u8")
    = endswith filename (lit ".m3u8")
    /\ (endswith_any filename [lit ".m3u"; lit ".mpd"; lit ".mp4"] = true ->
        endswith (live_name filename) (lit ".m3u8") = false).
Proof.
  intros f.
  assert (H : endswith (live_name f) (lit ".m3u8") = endswith f (lit ".m3u8")).
  { unfold endswith, live_name. rewrite rev_app_distr.
    change (rev (lit ".m3u8")) with [56%N; 117%N; 51%N; 109%N; 46%N].
    change (rev (lit "live_")) with [95%N; 101%N; 118%N; 105%N; 108%N].
    destruct (rev f) as [|a [|b [|c [|d [|e r]]]]]; simpl;
      rewrite ?andb_false_r; reflexivity. }
  split; [exact H|]. rewrite H. unfold endswith_any, endswith. simpl existsb.
  change (rev (lit ".m3u8")) with [56%N; 117%N; 51%N; 109%N; 46%N].
  change (rev (lit ".m3u")) with [117%N; 51%N; 109%N; 46%N].
  change (rev (lit ".mpd")) with [100%N; 112%N; 109%N; 46%N].
  change (rev (lit ".mp4")) with [52%N; 112%N; 109%N; 46%N].
  destruct (rev f) as [|a r]; [discriminate|]. simpl.
  destruct (a =? 56)%N eqn:E; [|reflexivity].
  apply N.eqb_eq in E. subst a. simpl. discriminate.
Qed.

Lemma combine_takes_outputs_of_m3u8_inputs_only_witness :
  endswith (live_name (lit "a.m3u")) (lit ".m3u8") = false.
Proof.
  refine (proj2 (combine_takes_outputs_of_m3u8_inputs_only (lit "a.m3u")) _).
  reflexivity.
Defined.

(** ** No attempt at all *)

(** X21: with [retries] zero or negative no URL is ever asked, so every
    playlist comes out empty: with at least one worker, [check_streams]
    returns on every schedule it completes and writes no line, whatever the
    file and the network. *)
Theorem nonpositive_retries_empty_output :
  forall (w : world) (lines : list str) (max_workers timeout : Z)
         (verbose : bool) (retries : Z) (sched : list action)
         (res : result (list str)),
    retries <= 0 ->
    0 < max_workers ->
    check_streams w lines max_workers timeout verbose retries sched = Some res ->
    res = Returned []
    /\ forall i,
         attempts (check_url_with_requests (w i) (strip (line_at lines i))
                     timeout retries) = 0%nat.
Proof.
  intros w lines mw timeout verbose retries sched res Hr Hmw Hcs.
  assert (Hrange : range retries = []).
  { unfold range. replace (Z.to_nat retries) with 0%nat by lia. reflexivity. }
  split.
  - destruct (check_streams_absorbed w lines timeout verbose retries mw sched res)
      as [out ->]; [intros i k _ Hk; lia|exact Hmw|exact Hcs|].
    destruct (check_streams_returned _ _ _ _ _ _ _ _ Hcs) as (p & _ & _ & ->).
    f_equal. clear Hcs.
    induction (yielded p) as [|i l IH]; [reflexivity|].
    simpl filter. unfold verdict at 1, check_url_with_requests.
    rewrite Hrange. simpl. exact IH.
  - intros i. unfold check_url_with_requests. rewrite Hrange. reflexivity.
Qed.

Lemma nonpositive_retries_empty_output_witness :
  Returned [] = @Returned (list str) [].
Proof.
  refine (proj1 (nonpositive_retries_empty_output
                   (fun _ => always_status 200) scenario_lines 2 5 false (-1)
                   second_first (Returned []) _ _ _)).
  - lia.
  - lia.
  - reflexivity.
Defined.

(** ** One result per entry *)

Lemma flat_map_if {A B} (f : A -> bool) (g : A -> list B) (l : list A) :
  flat_map g (filter f l) = flat_map (fun i => if f i then g i else []) l.
Proof.
  induction l as [|a l IH]; simpl; [reflexivity|].
  destruct (f a); simpl; rewrite IH; reflexivity.
Qed.

(** C3, as the code has it: with at least one worker, on a network whose
    failures are statuses and [RequestException]s, [check_streams] ends with
    exactly one probe result per entry of E. Every submitted task returns the
    result of its own probe: its two lines when the probe says live, nothing
    when it says dead. A complete execution exists and the call returns on
    it; every execution has done after [n] transitions [n] of the [3 * |E|]
    there are, and can go on until it is complete. On every complete
    execution each task was started once, the futures consumed by the loop
    are the submitted tasks, each once, [|E|] in all, and what is written is
    the results of these futures, one after the other in the order they were
    yielded. *)
Theorem check_streams_one_result_per_entry :
  forall (w : world) (lines : list str) (max_workers timeout : Z)
         (verbose : bool) (retries : Z),
    0 < max_workers ->
    (forall i k, In i (url_indices lines) -> (k < Z.to_nat retries)%nat ->
       absorbed (w i (strip (line_at lines i)) timeout k) = true) ->
    let live := verdict w lines timeout retries in
    (forall i, In i (url_indices lines) ->
       result_of (check_url_with_requests (w i) (strip (line_at lines i))
                    timeout retries) = Returned (live i)
       /\ result_of (process_stream (w i) i lines timeout verbose retries)
          = Returned (if live i then entry_lines lines i else []))
    /\ (exists sched out,
          check_streams w lines max_workers timeout verbose retries sched
          = Some (Returned out))
    /\ (forall sched p,
          run max_workers sched (submit_all (url_indices lines)) = Some p ->
          (List.length sched + remaining p
           = 3 * List.length (url_indices lines))%nat
          /\ (all_done p = false ->
              exists a p', step max_workers a p = Some p'))
    /\ (forall sched res,
          check_streams w lines max_workers timeout verbose retries sched
          = Some res ->
          exists p out,
            run max_workers sched (submit_all (url_indices lines)) = Some p
            /\ all_done p = true
            /\ starts sched = List.length (url_indices lines)
            /\ Permutation (yielded p) (url_indices lines)
            /\ NoDup (yielded p)
            /\ List.length (yielded p) = List.length (url_indices lines)
            /\ res = Returned out
            /\ out = flat_map
                       (fun i => if live i then entry_lines lines i else [])
                       (yielded p)).
Proof.
  intros w lines mw timeout verbose retries Hmw Habs live.
  assert (Hprobe : forall i, In i (url_indices lines) ->
            result_of (check_url_with_requests (w i) (strip (line_at lines i))
                         timeout retries) = Returned (live i)).
  { intros i Hi. unfold live, verdict.
    rewrite (check_url_absorbed (w i) _ timeout retries)
      by (intros k Hk; apply Habs; assumption).
    reflexivity. }
  split; [|split; [|split]].
  - intros i Hi. split; [apply Hprobe, Hi|].
    rewrite process_stream_result by (apply url_indices_in_range, Hi).
    rewrite (Hprobe i Hi). destruct (live i); reflexivity.
  - exists (sequential (url_indices lines)).
    pose proof (run_sequential mw (url_indices lines) [] Hmw) as Hrun.
    assert (Hseq : exists r, check_streams w lines mw timeout verbose retries
                               (sequential (url_indices lines)) = Some r).
    { unfold check_streams.
      destruct (mw <=? 0) eqn:E; [apply Z.leb_le in E; lia|].
      unfold submit_all. rewrite Hrun. eexists; reflexivity. }
    destruct Hseq as [r Hr].
    destruct (check_streams_absorbed _ _ _ _ _ _ _ _ Habs Hmw Hr) as [out ->].
    exists out. exact Hr.
  - intros sched p Hrun. apply run_invariant in Hrun.
    destruct Hrun as (_ & Hrem & _).
    unfold submit_all, remaining in Hrem. simpl in Hrem. split.
    + unfold remaining. lia.
    + apply step_progress, Hmw.
  - intros sched res Hcs.
    destruct (check_streams_absorbed _ _ _ _ _ _ _ _ Habs Hmw Hcs) as [out ->].
    destruct (check_streams_returned _ _ _ _ _ _ _ _ Hcs)
      as (p & Hrun & Hperm & Hout).
    apply check_streams_unfold in Hcs.
    destruct Hcs as [[Hle _]|(_ & p' & Hrun' & Hdone & _ & _)]; [lia|].
    rewrite Hrun in Hrun'. injection Hrun' as <-.
    exists p, out. split; [exact Hrun|]. split; [exact Hdone|].
    pose proof (run_invariant _ _ _ _ Hrun) as (_ & _ & Hq).
    assert (Hq0 : List.length (queue p) = 0%nat).
    { destruct p as [[|? ?] ? ? ?]; [reflexivity|discriminate]. }
    simpl in Hq. repeat split.
    + lia.
    + exact Hperm.
    + apply (Permutation_NoDup (Permutation_sym Hperm)), url_indices_NoDup.
    + apply Permutation_length, Hperm.
    + rewrite Hout. apply flat_map_if.
Qed.

Lemma check_streams_one_result_per_entry_witness :
  exists sched out,
    check_streams scenario_world scenario_lines 10 5 false 3 sched
    = Some (Returned out).
Proof.
  refine (proj1 (proj2
    (check_streams_one_result_per_entry scenario_world scenario_lines 10 5
       false 3 _ _))).
  - lia.
  - intros i k _ _. unfold scenario_world. destruct (i =? 3); reflexivity.
Defined.

(** C3, as stated, fails: on [broken_world] the probe of the first entry of
    the scenario's playlist raises a [ValueError]; the sequential execution
    ends with that exception, and no complete execution returns: the run does
    not end with a result for each of the two entries. *)
Lemma raising_probe_leaves_no_result_set :
  check_streams broken_world scenario_lines 2 5 false 3
    (sequential (url_indices scenario_lines)) = Some (Raised ValueError)
  /\ ~ (exists sched out,
          check_streams broken_world scenario_lines 2 5 false 3 sched
          = Some (Returned out)).
Proof.
  split; [reflexivity|]. intros (sched & out & H).
  destruct (raising_task_aborts broken_world scenario_lines 2 5 false 3
              1 ValueError sched (Returned out)) as [e' He'];
    [left; reflexivity|reflexivity|exact H|discriminate He'].
Qed.
